(** * gr-m2k: the analog input source block (lib/analog_in_source_impl.cc)

    A shallow embedding of [analog_in_source_impl]: the shared context
    registry ([get_context], [remove_contexts]), the refill thread
    ([refill_buffer]), the streaming call ([work]) and the lifecycle hooks
    ([start], [stop]).

    The two threads only meet inside critical sections of [d_mutex] and at
    the one unlocked assignment of [d_samples]; every critical section is one
    atomic step of a labelled transition function [step], but for the one of
    [refill_buffer] that runs from [lock.lock()] through the installation
    and the head of the loop into [wait]: it is taken in two steps
    ([LInstall], then [LRefillHead]).  The model so has every run of the
    block, in which the second of the two follows the first at once, and
    more; what holds of every run of the model holds of every run of the
    block, and the concrete runs below take the two steps back to back.
    What the device, the timer and the scheduler decide (the fetched block,
    a failed fetch, a wait that returns, the requested item count) is
    carried by the label. *)

From Stdlib Require Import ZArith Lia.
From stdpp Require Import gmap strings list.

Local Open Scope Z_scope.

(** ** Machine integers *)

(** [(unsigned long) x] on an LP64 target. *)
Definition to_ulong (z : Z) : Z := z mod 2 ^ 64.

(** [(int) x]: two's complement, 32 bits. *)
Definition to_int (z : Z) : Z := (z + 2 ^ 31) mod 2 ^ 32 - 2 ^ 31.

(** The values an [int] argument can take. *)
Definition int_range (z : Z) : Prop := - 2 ^ 31 <= z < 2 ^ 31.

(** ** Faults: the ways a call leaves the defined behaviour of the source *)

Inductive fault : Set :=
| ChannelFlagOutOfRange   (* d_channels[channel_index] read past the end *)
| SampleRowOutOfRange     (* d_samples[channel_index] read past the end *)
| SampleOutOfRange        (* d_samples[c][i] read past the end *)
| BadLexicalCast          (* boost::bad_lexical_cast thrown *)
| NoSampleRow.            (* d_samples[0] of an empty vector *)

Inductive result (A : Type) : Type :=
| Ok (a : A)
| Fault (f : fault).
Arguments Ok {A} a.
Arguments Fault {A} f.

Definition rbind {A B : Type} (r : result A) (k : A -> result B) : result B :=
  match r with
  | Ok a => k a
  | Fault f => Fault f
  end.

Notation "x <-- r ;; k" := (rbind r (fun x => k))
  (at level 100, r at next level, right associativity).

Definition result_to_option {A : Type} (r : result A) : option A :=
  match r with
  | Ok a => Some a
  | Fault _ => None
  end.

(** ** The shared context registry *)

Module Registry.
Section Registry.

(** [libm2k::contexts::M2k *], and the URI an open context reports. *)
Context {handle : Type} (getUri : handle -> string).

(** [std::map::insert]: the element is inserted only when the key is not
    present yet. *)
Definition map_insert (k : string) (v : handle) (m : gmap string handle)
  : gmap string handle :=
  match m !! k with
  | Some _ => m
  | None => <[k := v]> m
  end.

(** [get_context(uri)].  [m2kOpen] is the device library at the time of the
    call; [None] stands for a null context.  The result is [None] when
    [std::runtime_error] is thrown, and otherwise the returned context
    together with the registry after the call. *)
Definition get_context (m2kOpen : string -> option handle) (uri : string)
    (s_contexts : gmap string handle)
  : option (handle * gmap string handle) :=
  match s_contexts !! uri with
  | None =>
      match m2kOpen uri with
      | None => None
      | Some ctx => Some (ctx, map_insert (getUri ctx) ctx s_contexts)
      end
  | Some ctx => Some (ctx, s_contexts)
  end.

(** [remove_contexts(uri)]: the registry after the call, and the contexts
    handed to [contextClose] by it. *)
Definition remove_contexts (uri : string) (s_contexts : gmap string handle)
  : gmap string handle * list handle :=
  match s_contexts !! uri with
  | Some ctx => (delete uri s_contexts, [ctx])
  | None => (s_contexts, [])
  end.

End Registry.
End Registry.

(** ** The block *)

(** A stream tag as [work] fills it in ([srcid] is the block's own alias). *)
Record tag_t : Set := mk_tag {
  tag_stream : nat;      (* output stream passed to add_item_tag *)
  tag_offset : Z;        (* tag.offset *)
  tag_key : string;      (* tag.key *)
  tag_value : Z          (* tag.value *)
}.

(** Where the refill thread stands. *)
Inductive refill_pc : Set :=
| RNone        (* no thread: never started, or joined *)
| RHead        (* at the head of the loop, about to take the lock *)
| RWaiting     (* inside d_cond_wait.wait, predicate d_empty_buffer *)
| RFetching    (* lock released, inside getSamplesRaw *)
| RFetched     (* d_samples assigned, about to take the lock again *)
| RDone.       (* left the loop *)

(** Where the streaming thread stands. *)
Inductive work_pc : Set :=
| WIdle                              (* outside work *)
| WWaiting (noutput_items : Z).      (* inside d_cond_wait.wait_for *)

(** The timeout of the bounded wait in [work], in milliseconds. *)
Definition wait_for_ms : Z := 100.

(** Raw samples are [double]s, the engineering-unit output is [float]; the
    conversion belongs to the device library and the two
    [boost::lexical_cast]s throw on a value the target type cannot hold.
    The channel flags and the output mode are fixed at construction. *)
Class Config (sample volt : Type) : Type := {
  convertRawToVolts : nat -> sample -> sample;
  lexical_cast_float : sample -> option volt;
  lexical_cast_short : sample -> option Z;
  d_channels : list Z;
  d_stream_voltage_values : bool
}.

Inductive out_item (volt : Type) : Type :=
| OutFloat (v : volt)
| OutShort (z : Z).
Arguments OutFloat {volt} v.
Arguments OutShort {volt} z.

(** The members of the instance, the two threads, and what the block has
    handed to its environment: the items of each output stream, the tags,
    the messages published on the port, the values [work] returned, and
    the blocks [getSamplesRaw] returned.  [d_sample_index] is kept
    unbounded: its declaration is in the header, and it never exceeds the
    length of a fetched block. *)
Record world (sample volt : Type) : Type := mk_world {
  d_samples : list (list sample);
  d_items_in_buffer : Z;
  d_sample_index : Z;
  d_empty_buffer : bool;
  d_thread_stopped : bool;
  rpc : refill_pc;
  wpc : work_pc;
  outs : list (list (out_item volt));
  tags : list tag_t;
  msgs : list string;
  rets : list Z;
  fetched : list (list (list sample))
}.
Arguments mk_world {sample volt}.
Arguments d_samples {sample volt} w.
Arguments d_items_in_buffer {sample volt} w.
Arguments d_sample_index {sample volt} w.
Arguments d_empty_buffer {sample volt} w.
Arguments d_thread_stopped {sample volt} w.
Arguments rpc {sample volt} w.
Arguments wpc {sample volt} w.
Arguments outs {sample volt} w.
Arguments tags {sample volt} w.
Arguments msgs {sample volt} w.
Arguments rets {sample volt} w.
Arguments fetched {sample volt} w.

(** What the device, the timer and the scheduler do next. *)
Inductive label (sample : Type) : Type :=
| LStart                                   (* start() *)
| LStopSignal                              (* stop(), up to lock.unlock() *)
| LStopJoin                                (* d_refill_thread.join() returns *)
| LRefillHead                              (* refill: head of the loop *)
| LRefillWake                              (* refill: wait(...) returns *)
| LFetchOk (blk : list (list sample))      (* refill: getSamplesRaw returns *)
| LFetchFail                               (* refill: getSamplesRaw throws *)
| LInstall                                 (* refill: lock.lock() and on *)
| LWork (noutput_items : Z)                (* the scheduler calls work *)
| LWorkWake (elapsed_ms : Z).               (* work: wait_for(...) returns *)
Arguments LStart {sample}.
Arguments LStopSignal {sample}.
Arguments LStopJoin {sample}.
Arguments LRefillHead {sample}.
Arguments LRefillWake {sample}.
Arguments LFetchOk {sample} blk.
Arguments LFetchFail {sample}.
Arguments LInstall {sample}.
Arguments LWork {sample} noutput_items.
Arguments LWorkWake {sample} elapsed_ms.

Section Model.

Context {sample volt : Type} {cfg : Config sample volt}.

Local Abbreviation out_item := (out_item volt).
Local Abbreviation world := (world sample volt).
Local Abbreviation label := (label sample).

(** *** The copy loop of [work] *)

(** One output element: the body of the assignment in either branch. *)
Definition emit (channel_index : nat) (x : sample) : option out_item :=
  if d_stream_voltage_values
  then OutFloat <$> lexical_cast_float (convertRawToVolts channel_index x)
  else OutShort <$> lexical_cast_short x.

(** [for (sample_index = ...; sample_index < nb_samples; sample_index++)],
    with [todo] iterations left. *)
Fixpoint copy_samples (samples : list (list sample)) (channel_index : nat)
    (index : nat) (todo : nat) (sample_index : nat) : result (list out_item) :=
  match todo with
  | O => Ok []
  | S todo' =>
      match samples !! channel_index with
      | None => Fault SampleRowOutOfRange
      | Some row =>
          match row !! (sample_index + index)%nat with
          | None => Fault SampleOutOfRange
          | Some x =>
              match emit channel_index x with
              | None => Fault BadLexicalCast
              | Some y =>
                  ys <-- copy_samples samples channel_index index todo'
                           (S sample_index) ;;
                  Ok (y :: ys)
              end
          end
      end
  end.

(** [while (!d_channels[channel_index]) channel_index++], run on the flags
    from [channel_index] on; [None] when it reads past the last flag. *)
Fixpoint skip_inactive (flags : list Z) (channel_index : nat) : option nat :=
  match flags with
  | [] => None
  | f :: rest =>
      if decide (f = 0) then skip_inactive rest (S channel_index)
      else Some channel_index
  end.

(** [nitems_written(out_stream_index)]. *)
Definition nitems_written (os : list (list out_item)) (out_stream_index : nat) : Z :=
  match os !! out_stream_index with
  | Some strm => Z.of_nat (length strm)
  | None => 0
  end.

(** The items written through [out] become the next items of the stream. *)
Definition write_stream (out_stream_index : nat) (data : list out_item)
    (os : list (list out_item)) : list (list out_item) :=
  alter (fun strm => strm ++ data) out_stream_index os.

Definition buffer_start_tag (out_stream_index : nat) (offset value : Z) : tag_t :=
  {| tag_stream := out_stream_index; tag_offset := offset;
     tag_key := "buffer_start"; tag_value := value |}.

(** The [for] loop over the output streams, with [todo] streams left. *)
Fixpoint work_streams (w : world) (nb_samples : nat) (todo : nat)
    (out_stream_index channel_index : nat)
    (os : list (list out_item)) (ts : list tag_t)
  : result (list (list out_item) * list tag_t) :=
  match todo with
  | O => Ok (os, ts)
  | S todo' =>
      match skip_inactive (drop channel_index d_channels) channel_index with
      | None => Fault ChannelFlagOutOfRange
      | Some c =>
          let ts1 :=
            if decide (d_sample_index w = 0)
            then ts ++ [buffer_start_tag out_stream_index
                          (nitems_written os out_stream_index)
                          (d_items_in_buffer w)]
            else ts in
          data <-- copy_samples (d_samples w) c (Z.to_nat (d_sample_index w))
                     nb_samples 0 ;;
          work_streams w nb_samples todo' (S out_stream_index) (S c)
            (write_stream out_stream_index data os) ts1
      end
  end.

(** The channel each output stream is read from: the index computation of
    the loop above on its own. *)
Fixpoint stream_channels (todo : nat) (channel_index : nat) : result (list nat) :=
  match todo with
  | O => Ok []
  | S todo' =>
      match skip_inactive (drop channel_index d_channels) channel_index with
      | None => Fault ChannelFlagOutOfRange
      | Some c =>
          cs <-- stream_channels todo' (S c) ;;
          Ok (c :: cs)
      end
  end.

(** [work] from the computation of [nb_samples] to its [return]. *)
Definition work_copy (noutput_items : Z) (w : world) : result world :=
  let nb_samples := Z.min (d_items_in_buffer w) (to_ulong noutput_items) in
  ot <-- work_streams w (Z.to_nat nb_samples) (length (outs w)) 0 0
           (outs w) (tags w) ;;
  Ok {| d_samples := d_samples w;
        d_items_in_buffer := d_items_in_buffer w - nb_samples;
        d_sample_index := d_sample_index w + nb_samples;
        d_empty_buffer := d_empty_buffer w;
        d_thread_stopped := d_thread_stopped w;
        rpc := rpc w;
        wpc := WIdle;
        outs := ot.1;
        tags := ot.2;
        msgs := msgs w;
        rets := rets w ++ [to_int nb_samples];
        fetched := fetched w |}.

(** [return -1]. *)
Definition work_eos (w : world) : world :=
  {| d_samples := d_samples w;
     d_items_in_buffer := d_items_in_buffer w;
     d_sample_index := d_sample_index w;
     d_empty_buffer := d_empty_buffer w;
     d_thread_stopped := d_thread_stopped w;
     rpc := rpc w;
     wpc := WIdle;
     outs := outs w;
     tags := tags w;
     msgs := msgs w;
     rets := rets w ++ [-1];
     fetched := fetched w |}.

Definition set_empty_buffer (b : bool) (w : world) : world :=
  {| d_samples := d_samples w;
     d_items_in_buffer := d_items_in_buffer w;
     d_sample_index := d_sample_index w;
     d_empty_buffer := b;
     d_thread_stopped := d_thread_stopped w;
     rpc := rpc w;
     wpc := wpc w;
     outs := outs w;
     tags := tags w;
     msgs := msgs w;
     rets := rets w;
     fetched := fetched w |}.

Definition set_wpc (p : work_pc) (w : world) : world :=
  {| d_samples := d_samples w;
     d_items_in_buffer := d_items_in_buffer w;
     d_sample_index := d_sample_index w;
     d_empty_buffer := d_empty_buffer w;
     d_thread_stopped := d_thread_stopped w;
     rpc := rpc w;
     wpc := p;
     outs := outs w;
     tags := tags w;
     msgs := msgs w;
     rets := rets w;
     fetched := fetched w |}.

Definition set_rpc (p : refill_pc) (w : world) : world :=
  {| d_samples := d_samples w;
     d_items_in_buffer := d_items_in_buffer w;
     d_sample_index := d_sample_index w;
     d_empty_buffer := d_empty_buffer w;
     d_thread_stopped := d_thread_stopped w;
     rpc := p;
     wpc := wpc w;
     outs := outs w;
     tags := tags w;
     msgs := msgs w;
     rets := rets w;
     fetched := fetched w |}.

(** [message_port_pub(port_id, pmt::mp("timeout"))]. *)
Definition publish_timeout (w : world) : world :=
  {| d_samples := d_samples w;
     d_items_in_buffer := d_items_in_buffer w;
     d_sample_index := d_sample_index w;
     d_empty_buffer := d_empty_buffer w;
     d_thread_stopped := d_thread_stopped w;
     rpc := rpc w;
     wpc := wpc w;
     outs := outs w;
     tags := tags w;
     msgs := msgs w ++ ["timeout"%string];
     rets := rets w;
     fetched := fetched w |}.

(** *** [work] *)

(** A call of [work], from taking the lock to its return or to its first
    [wait_for]. *)
Definition work_call (noutput_items : Z) (w : world) : result world :=
  if d_thread_stopped w then Ok (work_eos w)
  else
    let w1 := if decide (d_items_in_buffer w = 0)
              then set_empty_buffer true w else w in
    if d_empty_buffer w1 then Ok (set_wpc (WWaiting noutput_items) w1)
    else work_copy noutput_items w1.

(** [wait_for] returns, the lock held again: [buffer_refilled] is the
    predicate [!d_empty_buffer] at that moment, so that a return with the
    buffer still empty is the timeout. *)
Definition work_wake (noutput_items : Z) (w : world) : result world :=
  let buffer_refilled := negb (d_empty_buffer w) in
  if d_thread_stopped w then Ok (work_eos w)
  else if buffer_refilled then work_copy noutput_items w
  else Ok (publish_timeout w).

(** *** [refill_buffer] *)

(** The head of the loop: the stopped test, then the wait on
    [d_empty_buffer], passed at once when the flag is already set. *)
Definition refill_head (w : world) : world :=
  if d_thread_stopped w then set_rpc RDone w
  else if d_empty_buffer w then set_rpc RFetching w
  else set_rpc RWaiting w.

(** [d_samples = d_analog_in->getSamplesRaw(d_buffer_size)], the lock
    released. *)
Definition fetch_ok (blk : list (list sample)) (w : world) : world :=
  {| d_samples := blk;
     d_items_in_buffer := d_items_in_buffer w;
     d_sample_index := d_sample_index w;
     d_empty_buffer := d_empty_buffer w;
     d_thread_stopped := d_thread_stopped w;
     rpc := RFetched;
     wpc := wpc w;
     outs := outs w;
     tags := tags w;
     msgs := msgs w;
     rets := rets w;
     fetched := fetched w ++ [blk] |}.

(** The [catch] branch: the flag is set and the loop is left. *)
Definition fetch_fail (w : world) : world :=
  {| d_samples := d_samples w;
     d_items_in_buffer := d_items_in_buffer w;
     d_sample_index := d_sample_index w;
     d_empty_buffer := d_empty_buffer w;
     d_thread_stopped := true;
     rpc := RDone;
     wpc := wpc w;
     outs := outs w;
     tags := tags w;
     msgs := msgs w;
     rets := rets w;
     fetched := fetched w |}.

(** The lock taken again: the fetched block is published. *)
Definition install (w : world) : result world :=
  match d_samples w with
  | [] => Fault NoSampleRow
  | row0 :: _ =>
      Ok {| d_samples := d_samples w;
            d_items_in_buffer := Z.of_nat (length row0);
            d_sample_index := 0;
            d_empty_buffer := false;
            d_thread_stopped := d_thread_stopped w;
            rpc := RHead;
            wpc := wpc w;
            outs := outs w;
            tags := tags w;
            msgs := msgs w;
            rets := rets w;
            fetched := fetched w |}
  end.

(** *** [start] and [stop] *)

Definition start (w : world) : world :=
  {| d_samples := d_samples w;
     d_items_in_buffer := 0;
     d_sample_index := d_sample_index w;
     d_empty_buffer := true;
     d_thread_stopped := false;
     rpc := RHead;
     wpc := wpc w;
     outs := outs w;
     tags := tags w;
     msgs := msgs w;
     rets := rets w;
     fetched := fetched w |}.

(** The critical section of [stop]. *)
Definition stop_signal (w : world) : world :=
  {| d_samples := d_samples w;
     d_items_in_buffer := d_items_in_buffer w;
     d_sample_index := d_sample_index w;
     d_empty_buffer := true;
     d_thread_stopped := true;
     rpc := rpc w;
     wpc := wpc w;
     outs := outs w;
     tags := tags w;
     msgs := msgs w;
     rets := rets w;
     fetched := fetched w |}.

(** *** The transition function *)

(** When [wait_for] can return after [elapsed_ms]: within the timeout, and
    with its predicate still false only when the timeout has run out. *)
Definition wait_for_returns (empty : bool) (elapsed_ms : Z) : bool :=
  (0 <=? elapsed_ms) && (elapsed_ms <=? wait_for_ms)
  && (negb empty || (elapsed_ms =? wait_for_ms)).

(** [None]: the step cannot be taken in [w], or it ends in a fault.
    [start] spawns the thread, so it needs the handle free; [join] returns
    once the thread has left its loop. *)
Definition step (l : label) (w : world) : option world :=
  match l with
  | LStart =>
      match rpc w with RNone => Some (start w) | _ => None end
  | LStopSignal => Some (stop_signal w)
  | LStopJoin =>
      match rpc w with RDone => Some (set_rpc RNone w) | _ => None end
  | LRefillHead =>
      match rpc w with RHead => Some (refill_head w) | _ => None end
  | LRefillWake =>
      match rpc w with
      | RWaiting => if d_empty_buffer w then Some (set_rpc RFetching w) else None
      | _ => None
      end
  | LFetchOk blk =>
      match rpc w with RFetching => Some (fetch_ok blk w) | _ => None end
  | LFetchFail =>
      match rpc w with RFetching => Some (fetch_fail w) | _ => None end
  | LInstall =>
      match rpc w with RFetched => result_to_option (install w) | _ => None end
  | LWork noutput_items =>
      match wpc w with
      | WIdle => result_to_option (work_call noutput_items w)
      | WWaiting _ => None
      end
  | LWorkWake elapsed_ms =>
      match wpc w with
      | WWaiting noutput_items =>
          if wait_for_returns (d_empty_buffer w) elapsed_ms
          then result_to_option (work_wake noutput_items w)
          else None
      | WIdle => None
      end
  end.

(** The time a run spends inside [wait_for]. *)
Definition waited_ms (ls : list label) : Z :=
  foldr (fun l acc => match l with LWorkWake ms => ms + acc | _ => acc end) 0 ls.

(** A run: the labels taken in order. *)
Fixpoint exec (ls : list label) (w : world) : option world :=
  match ls with
  | [] => Some w
  | l :: ls' =>
      match step l w with
      | Some w' => exec ls' w'
      | None => None
      end
  end.

(** An instance as the constructor leaves it, with [n_out] output streams
    connected: [d_samples] holds two empty rows, and the four members the
    constructor does not write hold whatever they hold. *)
Definition constructed (n_out : nat) (items index : Z) (empty stopped : bool)
  : world :=
  {| d_samples := [[]; []];
     d_items_in_buffer := items;
     d_sample_index := index;
     d_empty_buffer := empty;
     d_thread_stopped := stopped;
     rpc := RNone;
     wpc := WIdle;
     outs := replicate n_out [];
     tags := [];
     msgs := [];
     rets := [];
     fetched := [] |}.

(** *** Notions the properties are stated with *)

(** The physical channels whose flag is set, in channel order, for the
    flags [flags] of the channels [k], [k + 1], ... *)
Fixpoint active_from (flags : list Z) (k : nat) : list nat :=
  match flags with
  | [] => []
  | f :: rest =>
      if decide (f = 0) then active_from rest (S k)
      else k :: active_from rest (S k)
  end.

Definition active_channels : list nat := active_from d_channels 0.

(** The row of a channel; no samples when the vector has no such row. *)
Definition row_of (samples : list (list sample)) (c : nat) : list sample :=
  default [] (samples !! c).

(** [y] is what [work] writes for the raw sample [x] of channel [c]. *)
Definition emits (c : nat) (x : sample) (y : out_item) : Prop :=
  emit c x = Some y.

(** The streams after the loop wrote [datas] to the streams [i], [i + 1],
    ... *)
Fixpoint write_streams (i : nat) (datas : list (list out_item))
    (os : list (list out_item)) : list (list out_item) :=
  match datas with
  | [] => os
  | data :: rest => write_streams (S i) rest (write_stream i data os)
  end.

(** The tags of one call: none unless the read cursor is zero, and then
    one for each of the streams [i], ..., [i + todo - 1]. *)
Definition start_tags (w : world) (os : list (list out_item)) (i todo : nat)
  : list tag_t :=
  if decide (d_sample_index w = 0)
  then (fun j => buffer_start_tag j (nitems_written os j) (d_items_in_buffer w))
         <$> seq i todo
  else [].

(** The number of items a call copies. *)
Definition nb_of (noutput_items : Z) (w : world) : Z :=
  Z.min (d_items_in_buffer w) (to_ulong noutput_items).

(** The raw samples of channel [c] that a copy of [nb] items reads. *)
Definition reads (w : world) (c : nat) (nb : Z) : list sample :=
  take (Z.to_nat nb) (drop (Z.to_nat (d_sample_index w)) (row_of (d_samples w) c)).

(** The installed block serves the connected streams: there is a set flag
    for every stream, and the row of each channel that is read holds
    cursor plus remaining samples, each of which the output type can
    hold. *)
Definition well_formed (w : world) : Prop :=
  0 <= d_sample_index w /\ 0 <= d_items_in_buffer w /\
  (length (outs w) <= length active_channels)%nat /\
  Forall (fun c =>
            length (row_of (d_samples w) c)
              = Z.to_nat (d_sample_index w + d_items_in_buffer w) /\
            Forall (fun x => is_Some (emit c x)) (row_of (d_samples w) c))
         (take (length (outs w)) active_channels).

(** *** Runs between [start] and [stop] *)

(** The labels of the two threads at work: no [start], no [stop]. *)
Definition session_label (l : label) : Prop :=
  match l with
  | LStart | LStopSignal | LStopJoin => False
  | _ => True
  end.

(** A call of [work] as the scheduler makes it: a positive [int]. *)
Definition positive_request (l : label) : Prop :=
  match l with
  | LWork n => 0 < n /\ int_range n
  | _ => True
  end.

(** The items the calls of a run ask for, all together. *)
Definition requested (ls : list label) : Z :=
  foldr (fun l acc => match l with LWork n => n + acc | _ => acc end) 0 ls.

(** Nothing fetched, nothing written, nothing tagged yet, and no call of
    [work] under way. *)
Definition fresh (w : world) : Prop :=
  fetched w = [] /\ Forall (fun strm => strm = []) (outs w) /\ tags w = [] /\
  wpc w = WIdle.

(** Nothing fetched, nothing written, nothing tagged yet. *)
Definition blank (w : world) : Prop :=
  fetched w = [] /\ Forall (fun strm => strm = []) (outs w) /\ tags w = [].

(** The item count of a block, as [refill_buffer] takes it: the size of
    its first row. *)
Definition len0 (blk : list (list sample)) : Z :=
  Z.of_nat (length (row_of blk 0)).

(** The items of all the blocks. *)
Definition total0 (blocks : list (list (list sample))) : Z :=
  foldr (fun blk acc => len0 blk + acc) 0 blocks.

(** Every row of the block is as long as the first. *)
Definition rectangular (blk : list (list sample)) : Prop :=
  Forall (fun row => length row = length (row_of blk 0)) blk.


(** The samples of channel [c] in the blocks, in the order of the blocks. *)
Definition stream_of (c : nat) (blocks : list (list (list sample))) : list sample :=
  concat ((fun blk => row_of blk c) <$> blocks).

(** Read cursor plus remaining count is the item count of the block. *)
Definition buffer_equation (w : world) : Prop :=
  d_sample_index w + d_items_in_buffer w = len0 (d_samples w).

(** The fetched samples of channel [c] that no call has copied yet. *)
Definition pending (w : world) (c : nat) : list sample :=
  match rpc w with
  | RFetched => row_of (d_samples w) c
  | _ =>
      if d_empty_buffer w then []
      else drop (Z.to_nat (d_sample_index w)) (row_of (d_samples w) c)
  end.

(** The items fetched so far minus the items not copied yet. *)
Definition written (w : world) : Z :=
  total0 (fetched w)
  - match rpc w with
    | RFetched => len0 (d_samples w)
    | _ => d_items_in_buffer w
    end.

(** Offset of the first sample and item count of each block, for blocks
    written one after the other from offset [off] on. *)
Fixpoint block_starts (off : Z) (blocks : list (list (list sample)))
  : list (Z * Z) :=
  match blocks with
  | [] => []
  | blk :: rest => (off, len0 blk) :: block_starts (off + len0 blk) rest
  end.

(** The tags attached to stream [i]. *)
Definition tags_of (i : nat) (ts : list tag_t) : list tag_t :=
  filter (fun t => tag_stream t = i) ts.

(** One tag for each block whose first sample is among the first
    [count] items of stream [i]: at the offset of that sample, with the
    item count of the block. *)
Definition expected_tags (i : nat) (count : Z)
    (blocks : list (list (list sample))) : list tag_t :=
  (fun p => buffer_start_tag i p.1 p.2)
    <$> filter (fun p => p.1 < count) (block_starts 0 blocks).

(** What holds of the members between [start] and [stop]. *)
Record base_inv (w : world) : Prop := {
  bi_flight : rpc w = RFetching \/ rpc w = RFetched -> d_empty_buffer w = true;
  bi_empty : d_empty_buffer w = true -> d_items_in_buffer w = 0;
  bi_items : 0 <= d_items_in_buffer w;
  bi_index : d_empty_buffer w = false -> 0 <= d_sample_index w;
  bi_eq : d_empty_buffer w = false -> buffer_equation w;
  bi_last : d_empty_buffer w = false \/ rpc w = RFetched ->
            exists blocks, fetched w = blocks ++ [d_samples w];
  bi_len : Forall (fun strm => Z.of_nat (length strm) = written w) (outs w)
}.

(** Every row of the installed block holds cursor plus remaining samples. *)
Definition shape_inv (w : world) : Prop :=
  d_empty_buffer w = false ->
  Forall (fun row => Z.of_nat (length row)
                     = d_sample_index w + d_items_in_buffer w) (d_samples w).

(** What each stream holds is what [work] emits for a prefix of the fetched
    samples of its channel, and the rest of them is still to be copied. *)
Definition data_inv (w : world) : Prop :=
  forall i c strm,
    active_channels !! i = Some c -> outs w !! i = Some strm ->
    exists done_with,
      stream_of c (fetched w) = done_with ++ pending w c /\
      Forall2 (emits c) done_with strm.

(** What holds of the buffer whatever [start] and [stop] do. *)
Definition filled_inv (w : world) : Prop :=
  (d_empty_buffer w = false -> buffer_equation w) /\
  (rpc w = RFetching \/ rpc w = RFetched -> d_empty_buffer w = true).

(** Each stream carries exactly the tags of the blocks it has begun. *)
Definition tag_inv (w : world) : Prop :=
  forall i strm, outs w !! i = Some strm ->
    tags_of i (tags w) = expected_tags i (Z.of_nat (length strm)) (fetched w).

(** A call that waits was made with a positive [int]. *)
Definition req_inv (w : world) : Prop :=
  match wpc w with
  | WWaiting n => 0 < n /\ int_range n
  | WIdle => True
  end.

(** The labels of a run in which the block is not started again. *)
Definition no_restart (l : label) : Prop :=
  match l with
  | LStart => False
  | _ => True
  end.

(** *** One session among several *)






End Model.

(** ** Configuration at construction, and what the runs are measured with *)

(** The calls [set_params] and [set_trigger] make on the device; a
    [double] argument is a [sample]. *)
Inductive command (sample : Type) : Type :=
| EnableChannel (i : nat) (on : bool)        (* enableChannel(i, on) *)
| SetRange (i : nat) (range : Z)             (* setRange(i, range) *)
| SetSampleRate (f : sample)                 (* setSampleRate(f) *)
| SetOversamplingRatio (n : Z)               (* setOversamplingRatio(n) *)
| SetAnalogCondition (i : nat) (c : Z)       (* setAnalogCondition(i, c) *)
| SetAnalogMode (i : nat) (m : Z)            (* setAnalogMode(i, m) *)
| SetAnalogLevel (i : nat) (level : sample)  (* setAnalogLevel(i, level) *)
| SetAnalogSource (s : Z)                    (* setAnalogSource(s) *)
| SetAnalogDelay (d : Z).                    (* setAnalogDelay(d) *)
Arguments EnableChannel {sample} i on.
Arguments SetRange {sample} i range.
Arguments SetSampleRate {sample} f.
Arguments SetOversamplingRatio {sample} n.
Arguments SetAnalogCondition {sample} i c.
Arguments SetAnalogMode {sample} i m.
Arguments SetAnalogLevel {sample} i level.
Arguments SetAnalogSource {sample} s.
Arguments SetAnalogDelay {sample} d.

(** The argument vector that [operator[]] reads past its end. *)
Inductive setup_fault : Set :=
| RangesOutOfRange
| TriggerConditionOutOfRange
| TriggerModeOutOfRange
| TriggerLevelOutOfRange.

Section Setup.

Context {sample volt : Type} {cfg : Config sample volt}.

Local Abbreviation out_item := (out_item volt).
Local Abbreviation world := (world sample volt).
Local Abbreviation label := (label sample).
Local Abbreviation command := (command sample).

(** The loop of [set_params] over the flags of the channels [i], [i + 1],
    ...: [d_channels.at(i)] is in range by the loop test, [ranges[i]] is
    not checked. *)
Fixpoint params_loop (flags : list Z) (i : nat) (ranges : list Z)
  : setup_fault + list command :=
  match flags with
  | [] => inr []
  | f :: rest =>
      if decide (f = 0) then params_loop rest (S i) ranges
      else
        match ranges !! i with
        | None => inl RangesOutOfRange
        | Some r =>
            match params_loop rest (S i) ranges with
            | inl e => inl e
            | inr cs => inr (EnableChannel i true :: SetRange i r :: cs)
            end
        end
  end.

(** [set_params(ranges, sampling_frequency, oversampling_ratio)]: the calls
    made on [d_analog_in], in order. *)
Definition set_params (ranges : list Z) (sampling_frequency : sample)
    (oversampling_ratio : Z) : setup_fault + list command :=
  match params_loop d_channels 0 ranges with
  | inl e => inl e
  | inr cs =>
      inr (cs ++ [SetSampleRate sampling_frequency;
                  SetOversamplingRatio oversampling_ratio])
  end.

(** The loop of [set_trigger]; the three vectors are read in the order of
    the three calls. *)
Fixpoint trigger_loop (flags : list Z) (i : nat)
    (trigger_condition trigger_mode : list Z) (trigger_level : list sample)
  : setup_fault + list command :=
  match flags with
  | [] => inr []
  | f :: rest =>
      if decide (f = 0)
      then trigger_loop rest (S i) trigger_condition trigger_mode trigger_level
      else
        match trigger_condition !! i with
        | None => inl TriggerConditionOutOfRange
        | Some c =>
            match trigger_mode !! i with
            | None => inl TriggerModeOutOfRange
            | Some m =>
                match trigger_level !! i with
                | None => inl TriggerLevelOutOfRange
                | Some lv =>
                    match trigger_loop rest (S i) trigger_condition
                            trigger_mode trigger_level with
                    | inl e => inl e
                    | inr cs =>
                        inr (SetAnalogCondition i c :: SetAnalogMode i m
                             :: SetAnalogLevel i lv :: cs)
                    end
                end
            end
        end
  end.

(** [set_trigger(...)]: the calls made on the trigger, in order. *)
Definition set_trigger (trigger_condition trigger_mode : list Z)
    (trigger_source trigger_delay : Z) (trigger_level : list sample)
  : setup_fault + list command :=
  match trigger_loop d_channels 0 trigger_condition trigger_mode
          trigger_level with
  | inl e => inl e
  | inr cs =>
      inr (cs ++ [SetAnalogSource trigger_source; SetAnalogDelay trigger_delay])
  end.

(** The calls for one active channel. *)
Definition channel_params (ranges : list Z) (c : nat) : list command :=
  match ranges !! c with
  | Some r => [EnableChannel c true; SetRange c r]
  | None => []
  end.

Definition channel_trigger (trigger_condition trigger_mode : list Z)
    (trigger_level : list sample) (c : nat) : list command :=
  match trigger_condition !! c, trigger_mode !! c, trigger_level !! c with
  | Some cd, Some m, Some lv =>
      [SetAnalogCondition c cd; SetAnalogMode c m; SetAnalogLevel c lv]
  | _, _, _ => []
  end.

(** The steps of the refill thread. *)
Definition refill_label (l : label) : bool :=
  match l with
  | LRefillHead | LRefillWake | LFetchOk _ | LFetchFail | LInstall => true
  | _ => false
  end.

Fixpoint count_refill (ls : list label) : nat :=
  match ls with
  | [] => O
  | l :: rest => ((if refill_label l then 1 else 0) + count_refill rest)%nat
  end.

(** How many steps the refill thread has before it leaves its loop, once
    the stopped flag is set. *)
Definition refill_steps_left (p : refill_pc) : nat :=
  match p with
  | RWaiting => 4
  | RFetching => 3
  | RFetched => 2
  | RHead => 1
  | RDone | RNone => 0
  end.

(** How many blocks it can still fetch then. *)
Definition fetches_left (p : refill_pc) : nat :=
  match p with
  | RWaiting | RFetching => 1
  | _ => 0
  end.

(** The returns of [wait_for] in a run. *)
Fixpoint count_wakes (ls : list label) : nat :=
  match ls with
  | [] => O
  | LWorkWake _ :: rest => S (count_wakes rest)
  | _ :: rest => count_wakes rest
  end.

(** The items the returned values of [work] stand for: -1 stands for
    none. *)
Definition produced (returned : list Z) : Z :=
  foldr (fun r acc => Z.max r 0 + acc) 0 returned.

(** The items a call that is waiting was asked for. *)
Definition waiting_for (w : world) : Z :=
  match wpc w with
  | WWaiting n => n
  | WIdle => 0
  end.

(** The item is of the type of the output signature: [float] in voltage
    mode, [short] otherwise. *)
Definition item_of_mode (y : out_item) : Prop :=
  match y with
  | OutFloat _ => d_stream_voltage_values = true
  | OutShort _ => d_stream_voltage_values = false
  end.

End Setup.

(** ** Concrete instances *)

(** Integer samples: a short holds a raw code between -32768 and 32767, and
    the stand-in for the conversion keeps the channel visible in the
    value.  The stand-in for the cast to [float] does not round: the
    instances below run in raw mode, and the properties are proved for any
    conversion and any casts. *)
Definition demo_config (channels : list Z) (voltage : bool) : Config Z Z :=
  {| convertRawToVolts := fun c x => 10 * x + Z.of_nat c;
     lexical_cast_float := fun x => Some x;
     lexical_cast_short := fun x =>
       if decide (-32768 <= x <= 32767) then Some x else None;
     d_channels := channels;
     d_stream_voltage_values := voltage |}.

(** Two blocks of four samples for two channels. *)
Definition demo_block1 : list (list Z) := [[1; 2; 3; 4]; [5; 6; 7; 8]].
Definition demo_block2 : list (list Z) := [[11; 12; 13; 14]; [15; 16; 17; 18]].

(** An instance with [n_out] streams on which [demo_block1] was installed
    and [index] items were read. *)
Definition demo_filled (n_out : nat) (index : Z) : world Z Z :=
  {| d_samples := demo_block1;
     d_items_in_buffer := 4 - index;
     d_sample_index := index;
     d_empty_buffer := false;
     d_thread_stopped := false;
     rpc := RWaiting;
     wpc := WIdle;
     outs := replicate n_out [];
     tags := [];
     msgs := [];
     rets := [];
     fetched := [demo_block1] |}.

(** Two channels, raw output. *)
Definition demo_raw : Config Z Z := demo_config [1; 1] false.

(** A new instance with two streams connected. *)
Definition demo_new : world Z Z := constructed 2 0 0 false false.

(** The refill thread inside [getSamplesRaw] after [start]. *)
Definition demo_fetching : world Z Z :=
  {| d_samples := [[]; []];
     d_items_in_buffer := 0;
     d_sample_index := 0;
     d_empty_buffer := true;
     d_thread_stopped := false;
     rpc := RFetching;
     wpc := WIdle;
     outs := [[]; []];
     tags := [];
     msgs := [];
     rets := [];
     fetched := [] |}.

(** Blocks of 2048 samples, read 1024 items at a time. *)
Definition demo_ramp (first : Z) (n : nat) : list Z :=
  (fun k => first + Z.of_nat k) <$> seq 0 n.

Definition demo_big_block : list (list Z) :=
  [demo_ramp 0 2048; demo_ramp 4000 2048].

(** One block fetched and installed, one call of [work] for half of it. *)
Definition demo_half_read : list (label Z) :=
  [LStart; LRefillHead; LFetchOk demo_big_block; LInstall; LRefillHead;
   LWork 1024].

(** The same, then [stop], which wakes the refill thread and has its fetch
    cancelled, and [start] again. *)
Definition demo_restart : list (label Z) :=
  demo_half_read ++ [LStopSignal; LRefillWake; LFetchFail; LStopJoin; LStart].

(** [work] is called while the fetch of the refill thread does not return,
    and its wait times out twice. *)
Definition demo_hung_fetch : list (label Z) :=
  [LStart; LRefillHead; LWork 1024; LWorkWake 100; LWorkWake 100].

(** Two small blocks read three items at a time. *)
Definition demo_two_blocks : list (label Z) :=
  [LRefillHead; LFetchOk demo_block1; LInstall; LRefillHead; LWork 3;
   LWork 3; LWork 3; LRefillWake; LFetchOk demo_block2; LInstall;
   LRefillHead; LWorkWake 50].

(** The instances these runs end in. *)
Definition demo_restart_end : world Z Z :=
  Eval vm_compute in
    default demo_new (exec (cfg := demo_raw) demo_restart demo_new).

Definition demo_hung_fetch_end : world Z Z :=
  Eval vm_compute in
    default demo_new (exec (cfg := demo_raw) demo_hung_fetch demo_new).

Definition demo_two_blocks_end : world Z Z :=
  Eval vm_compute in
    default demo_new
      (exec (cfg := demo_raw) (LStart :: demo_two_blocks) demo_new).














(** Three channels, the second one off; a block of two samples for each. *)
Definition demo_three_rows : world Z Z :=
  {| d_samples := [[1; 2]; [3; 4]; [5; 6]];
     d_items_in_buffer := 2;
     d_sample_index := 0;
     d_empty_buffer := false;
     d_thread_stopped := false;
     rpc := RWaiting;
     wpc := WIdle;
     outs := [[]; []];
     tags := [];
     msgs := [];
     rets := [];
     fetched := [[[1; 2]; [3; 4]; [5; 6]]] |}.

(** A device library whose contexts are their own URIs. *)
Definition demo_open (uri : string) : option string :=
  if decide (uri = "ip:192.168.2.1"%string) then Some uri else None.

(** An instance that was stopped and joined with half of [demo_block1]
    unread. *)
Definition demo_stale : world Z Z := set_rpc RNone (demo_filled 2 2).

(** After [start]: [work] is called and times out, the refill thread
    fetches, and nothing is installed yet. *)
Definition demo_idle_run : list (label Z) :=
  [LWork 1024; LWorkWake 100; LRefillHead; LFetchOk demo_block2].

Definition demo_idle_end : world Z Z :=
  Eval vm_compute in
    default demo_new (exec (cfg := demo_raw) (LStart :: demo_idle_run) demo_stale).

(** What the refill thread does after [stop] found it waiting. *)
Definition demo_stop_run : list (label Z) :=
  [LRefillWake; LFetchOk demo_block2; LInstall; LRefillHead; LStopJoin].

Definition demo_stop_end : world Z Z :=
  Eval vm_compute in
    default demo_new
      (exec (cfg := demo_raw) demo_stop_run (stop_signal (demo_filled 2 2))).

(** [demo_two_blocks] up to the second fetch. *)
Definition demo_first_block_read : list (label Z) :=
  [LRefillHead; LFetchOk demo_block1; LInstall; LRefillHead; LWork 3;
   LWork 3; LWork 3; LRefillWake].

Definition demo_first_block_read_end : world Z Z :=
  Eval vm_compute in
    default demo_new
      (exec (cfg := demo_raw) (LStart :: demo_first_block_read) demo_new).

(** A call of [work] waits and the fetch has returned two empty rows. *)
Definition demo_empty_fetched : world Z Z :=
  {| d_samples := [[]; []];
     d_items_in_buffer := 0;
     d_sample_index := 4;
     d_empty_buffer := true;
     d_thread_stopped := false;
     rpc := RFetched;
     wpc := WWaiting 1024;
     outs := [[]; []];
     tags := [];
     msgs := [];
     rets := [];
     fetched := [[[]; []]] |}.

(** A device library whose contexts report one URI whatever they were
    opened with. *)
Definition demo_usb_uri (ctx : nat) : string := "usb:1.2.5".
Definition demo_open_any (uri : string) : option nat := Some 7%nat.

(** A registry that holds a context under that URI already. *)
Definition demo_registry : gmap string nat := {[ "usb:1.2.5"%string := 3%nat ]}.

(** ** Properties *)

(** Closes the side conditions of the frame lemmas below. *)
Ltac frame_side :=
  cbn; first [done | congruence | split; intros; congruence
             | intros; congruence | intros; by left | intros; by right].

Section Properties.

Context {sample volt : Type} {cfg : Config sample volt}.

Local Abbreviation out_item := (out_item volt).
Local Abbreviation world := (world sample volt).
Local Abbreviation label := (label sample).

(** *** Channels and streams *)

Lemma active_from_lookup flags k c :
  c ∈ active_from flags k <->
  (k <= c)%nat /\ exists f, flags !! (c - k)%nat = Some f /\ f <> 0.
Proof.
  revert k. induction flags as [|f rest IH]; intros k; simpl.
  - split; [intros H; inversion H | intros (_ & f & Hf & _); done].
  - destruct (decide (f = 0)) as [->|Hf].
    + rewrite IH. split.
      * intros (Hk & f & Hl & Hne). split; [lia|]. exists f. split; [|done].
        replace (c - k)%nat with (S (c - S k)) by lia. done.
      * intros (Hk & g & Hl & Hne).
        destruct (decide (c = k)) as [->|Hck].
        { rewrite Nat.sub_diag in Hl. simpl in Hl. congruence. }
        split; [lia|]. exists g. split; [|done].
        replace (c - k)%nat with (S (c - S k)) in Hl by lia. done.
    + rewrite elem_of_cons, IH. split.
      * intros [->|(Hk & g & Hl & Hne)].
        { split; [lia|]. exists f. rewrite Nat.sub_diag. done. }
        split; [lia|]. exists g. split; [|done].
        replace (c - k)%nat with (S (c - S k)) by lia. done.
      * intros (Hk & g & Hl & Hne).
        destruct (decide (c = k)) as [->|Hck]; [by left|right].
        split; [lia|]. exists g. split; [|done].
        replace (c - k)%nat with (S (c - S k)) in Hl by lia. done.
Qed.

Lemma skip_inactive_head flags k :
  skip_inactive flags k = head (active_from flags k).
Proof.
  revert k. induction flags as [|f rest IH]; intros k; simpl; [done|].
  destruct (decide (f = 0)); [apply IH | done].
Qed.

Lemma active_from_ge flags k c : c ∈ active_from flags k -> (k <= c)%nat.
Proof. rewrite active_from_lookup. tauto. Qed.

(** Past the channel the loop stopped at, the flags still to read are the
    ones after that channel. *)
Lemma active_from_skip k c :
  skip_inactive (drop k d_channels) k = Some c ->
  active_from (drop k d_channels) k = c :: active_from (drop (S c) d_channels) (S c).
Proof.
  remember (drop k d_channels) as flags eqn:Hflags.
  assert (Hdrop : forall j, drop j flags = drop (k + j) d_channels).
  { intros j. subst flags. apply drop_drop. }
  clear Hflags.
  assert (Hgen : forall (fl : list Z) (m : nat),
    (forall j, drop j fl = drop (m + j) d_channels) ->
    skip_inactive fl m = Some c ->
    active_from fl m = c :: active_from (drop (S c) d_channels) (S c)).
  { clear. induction fl as [|f rest IH]; intros m Hd Hs; simpl in *; [done|].
    destruct (decide (f = 0)).
    - apply IH; [|done]. intros j. specialize (Hd (S j)). simpl in Hd.
      rewrite Hd. replace (m + S j)%nat with (S m + j)%nat by lia. done.
    - injection Hs as <-. f_equal. specialize (Hd 1%nat). simpl in Hd.
      rewrite drop_0 in Hd. rewrite Hd.
      replace (m + 1)%nat with (S m) by lia. done. }
  apply Hgen. done.
Qed.

(** The index computation of the loop yields the first [todo] set flags
    from [k] on, and reads past the end exactly when there are fewer. *)
Lemma stream_channels_spec todo k :
  stream_channels todo k =
    if decide (todo <= length (active_from (drop k d_channels) k))%nat
    then Ok (take todo (active_from (drop k d_channels) k))
    else Fault ChannelFlagOutOfRange.
Proof.
  revert k. induction todo as [|todo IH]; intros k; cbn [stream_channels].
  - destruct (decide _) as [_|Hn]; [done | exfalso; lia].
  - destruct (skip_inactive (drop k d_channels) k) as [c|] eqn:Hs.
    + rewrite (active_from_skip _ _ Hs). rewrite IH.
      cbn [length take].
      destruct (decide (todo <= length (active_from (drop (S c) d_channels) (S c)))%nat);
        destruct (decide (S todo <= _)%nat); try (exfalso; lia); done.
    + rewrite skip_inactive_head in Hs.
      destruct (active_from (drop k d_channels) k); [|done].
      destruct (decide _) as [Hn|_]; [simpl in Hn; exfalso; lia | done].
Qed.

(** *** The copy loop *)

Lemma copy_samples_ok samples c index todo s ys :
  copy_samples samples c index todo s = Ok ys ->
  length ys = todo /\
  Forall2 (emits c) (take todo (drop (s + index) (row_of samples c))) ys /\
  (s + index + todo <= length (row_of samples c) \/ todo = 0)%nat.
Proof.
  revert s ys. induction todo as [|todo IH]; intros s ys; simpl.
  - intros [= <-]. split; [done|]. split; [constructor | by right].
  - unfold row_of. destruct (samples !! c) as [row|] eqn:Hrow; [|done]. simpl.
    destruct (row !! (s + index)%nat) as [x|] eqn:Hx; [|done].
    destruct (emit c x) as [y|] eqn:Hy; [|done].
    destruct (copy_samples samples c index todo (S s)) as [ys'|] eqn:Hrec; [|done].
    simpl. intros [= <-].
    destruct (IH _ _ Hrec) as (Hlen & Hall & Hbound).
    unfold row_of in Hall, Hbound. rewrite Hrow in Hall, Hbound. simpl in *.
    split; [by rewrite Hlen|].
    pose proof (lookup_lt_Some _ _ _ Hx) as Hlt.
    split; [|left; lia].
    rewrite (drop_S _ _ _ Hx). simpl. constructor; [done|].
    replace (S (s + index))%nat with (S s + index)%nat by lia. done.
Qed.

Lemma copy_samples_total samples c index todo s :
  (s + index + todo <= length (row_of samples c))%nat ->
  Forall (fun x => is_Some (emit c x)) (row_of samples c) ->
  exists ys, copy_samples samples c index todo s = Ok ys.
Proof.
  revert s. induction todo as [|todo IH]; intros s Hlen Hcast; simpl.
  - eauto.
  - unfold row_of in Hlen, Hcast.
    destruct (samples !! c) as [row|] eqn:Hrow; simpl in *; [|lia].
    destruct (lookup_lt_is_Some_2 row (s + index)%nat) as [x Hx]; [lia|].
    rewrite Hx.
    destruct (proj1 (Forall_forall _ _) Hcast x) as [y Hy].
    { eapply list_elem_of_lookup_2. done. }
    rewrite Hy.
    destruct (IH (S s)) as [ys Hys].
    { unfold row_of. rewrite Hrow. simpl. lia. }
    { unfold row_of. rewrite Hrow. done. }
    rewrite Hys. simpl. eauto.
Qed.

(** *** The loop over the output streams *)

Lemma nitems_written_write_stream i j data (os : list (list out_item)) :
  i <> j -> nitems_written (write_stream i data os) j = nitems_written os j.
Proof.
  intros Hij. unfold nitems_written, write_stream.
  by rewrite list_lookup_alter_ne.
Qed.

Lemma start_tags_write_stream (w : world) i j todo data os :
  (i < j)%nat ->
  start_tags w (write_stream i data os) j todo = start_tags w os j todo.
Proof.
  intros Hij. unfold start_tags. destruct (decide _); [|done].
  apply list_fmap_ext. intros n x Hx.
  apply lookup_seq in Hx as [-> _].
  rewrite nitems_written_write_stream by lia. done.
Qed.

Lemma start_tags_S (w : world) os i todo :
  start_tags w os i (S todo) =
    (if decide (d_sample_index w = 0)
     then [buffer_start_tag i (nitems_written os i) (d_items_in_buffer w)]
     else []) ++ start_tags w os (S i) todo.
Proof. unfold start_tags. destruct (decide _); done. Qed.

Lemma length_write_streams i datas (os : list (list out_item)) :
  length (write_streams i datas os) = length os.
Proof.
  revert i os. induction datas as [|d ds IH]; intros i os; simpl; [done|].
  rewrite IH. unfold write_stream. apply length_alter.
Qed.

Lemma lookup_write_streams_lt i j datas (os : list (list out_item)) :
  (j < i)%nat -> write_streams i datas os !! j = os !! j.
Proof.
  revert i os. induction datas as [|d ds IH]; intros i os Hj; simpl; [done|].
  rewrite IH by lia. unfold write_stream. apply list_lookup_alter_ne. lia.
Qed.

Lemma lookup_write_streams_ge i j datas (os : list (list out_item)) :
  (i + length datas <= j)%nat -> write_streams i datas os !! j = os !! j.
Proof.
  revert i os. induction datas as [|d ds IH]; intros i os Hj; simpl in *; [done|].
  rewrite IH by lia. unfold write_stream. apply list_lookup_alter_ne. lia.
Qed.

Lemma lookup_write_streams i j datas data (os : list (list out_item)) :
  datas !! j = Some data ->
  write_streams i datas os !! (i + j)%nat =
    (fun strm => strm ++ data) <$> os !! (i + j)%nat.
Proof.
  revert i j os. induction datas as [|d ds IH]; intros i j os Hj; [done|].
  destruct j as [|j]; simpl in *.
  - injection Hj as ->. rewrite Nat.add_0_r.
    rewrite lookup_write_streams_lt by lia.
    unfold write_stream. apply list_lookup_alter_eq.
  - replace (i + S j)%nat with (S i + j)%nat by lia.
    rewrite (IH _ _ _ Hj). unfold write_stream.
    rewrite list_lookup_alter_ne by lia. done.
Qed.

(** What a run of the loop that returns has done. *)
Lemma work_streams_ok w nb todo i k os ts os' ts' :
  work_streams w nb todo i k os ts = Ok (os', ts') ->
  exists cs datas,
    stream_channels todo k = Ok cs /\
    Forall2 (fun c data =>
               copy_samples (d_samples w) c (Z.to_nat (d_sample_index w)) nb 0
               = Ok data) cs datas /\
    os' = write_streams i datas os /\
    ts' = ts ++ start_tags w os i todo.
Proof.
  revert i k os ts. induction todo as [|todo IH]; intros i k os ts;
    cbn [work_streams stream_channels].
  - intros [= <- <-]. exists [], []. split; [done|]. split; [constructor|].
    split; [done|]. unfold start_tags. destruct (decide _); simpl;
      by rewrite app_nil_r.
  - destruct (skip_inactive (drop k d_channels) k) as [c|]; [|done].
    destruct (copy_samples (d_samples w) c (Z.to_nat (d_sample_index w)) nb 0)
      as [data|] eqn:Hcopy; [|done].
    cbn [rbind]. intros Hrec.
    destruct (IH _ _ _ _ Hrec) as (cs & datas & Hcs & Hall & -> & ->).
    exists (c :: cs), (data :: datas). rewrite Hcs. cbn [rbind].
    split; [done|]. split; [by constructor|]. split; [done|].
    rewrite start_tags_write_stream by lia. rewrite start_tags_S.
    destruct (decide _); simpl; by rewrite <- ?app_assoc.
Qed.

(** The loop returns when the channels exist and every copy returns. *)
Lemma work_streams_total w nb todo i k os ts cs :
  stream_channels todo k = Ok cs ->
  Forall (fun c => exists data,
            copy_samples (d_samples w) c (Z.to_nat (d_sample_index w)) nb 0
            = Ok data) cs ->
  exists r, work_streams w nb todo i k os ts = Ok r.
Proof.
  revert i k os ts cs. induction todo as [|todo IH]; intros i k os ts cs;
    cbn [work_streams stream_channels].
  - eauto.
  - destruct (skip_inactive (drop k d_channels) k) as [c|]; [|done].
    destruct (stream_channels todo (S c)) as [cs'|] eqn:Hcs; [|done].
    cbn [rbind]. intros [= <-] Hall.
    apply Forall_cons in Hall as [[data Hdata] Hall].
    rewrite Hdata. cbn [rbind]. by eapply IH.
Qed.

(** *** [work] *)

Lemma to_ulong_nonneg z : 0 <= to_ulong z.
Proof. unfold to_ulong. apply Z.mod_pos_bound. lia. Qed.

Lemma to_ulong_small z : 0 <= z -> int_range z -> to_ulong z = z.
Proof. unfold to_ulong, int_range. intros. apply Z.mod_small. lia. Qed.

Lemma to_int_small z : int_range z -> to_int z = z.
Proof.
  unfold to_int, int_range. intros. rewrite Z.mod_small by lia. lia.
Qed.

Lemma work_copy_ok n w w' :
  work_copy n w = Ok w' ->
  exists cs datas,
    stream_channels (length (outs w)) 0 = Ok cs /\
    Forall2 (fun c data =>
               copy_samples (d_samples w) c (Z.to_nat (d_sample_index w))
                 (Z.to_nat (nb_of n w)) 0 = Ok data) cs datas /\
    w' = {| d_samples := d_samples w;
            d_items_in_buffer := d_items_in_buffer w - nb_of n w;
            d_sample_index := d_sample_index w + nb_of n w;
            d_empty_buffer := d_empty_buffer w;
            d_thread_stopped := d_thread_stopped w;
            rpc := rpc w;
            wpc := WIdle;
            outs := write_streams 0 datas (outs w);
            tags := tags w ++ start_tags w (outs w) 0 (length (outs w));
            msgs := msgs w;
            rets := rets w ++ [to_int (nb_of n w)];
            fetched := fetched w |}.
Proof.
  unfold work_copy. fold (nb_of n w).
  destruct (work_streams _ _ _ _ _ _ _) as [[os' ts']|] eqn:Hloop; [|done].
  cbn [rbind fst snd]. intros [= <-].
  destruct (work_streams_ok _ _ _ _ _ _ _ _ _ Hloop) as (cs & datas & Hcs & Hall & -> & ->).
  exists cs, datas. done.
Qed.

Lemma stream_channels_active n cs :
  stream_channels n 0 = Ok cs ->
  (n <= length active_channels)%nat /\ cs = take n active_channels.
Proof.
  rewrite stream_channels_spec. rewrite drop_0. fold active_channels.
  destruct (decide _); [|done]. intros [= <-]. done.
Qed.

Lemma work_copy_total n w :
  well_formed w -> exists w', work_copy n w = Ok w'.
Proof.
  intros (Hidx & Hitems & Hlen & Hrows). unfold work_copy. fold (nb_of n w).
  destruct (work_streams_total w (Z.to_nat (nb_of n w)) (length (outs w)) 0 0
              (outs w) (tags w) (take (length (outs w)) active_channels))
    as [r Hr].
  - rewrite stream_channels_spec, drop_0. fold active_channels.
    by rewrite decide_True.
  - eapply Forall_impl; [exact Hrows|]. intros c [Hrow Hcast]. cbn beta in *.
    apply copy_samples_total; [|done]. rewrite Hrow.
    pose proof (to_ulong_nonneg n). unfold nb_of. lia.
  - rewrite Hr. cbn [rbind]. eauto.
Qed.

(** What a copy that returns wrote to each stream. *)
Lemma work_copy_streams n w w' :
  work_copy n w = Ok w' ->
  length (outs w') = length (outs w) /\
  forall i strm, outs w !! i = Some strm ->
    exists c data,
      active_channels !! i = Some c /\
      outs w' !! i = Some (strm ++ data) /\
      length data = Z.to_nat (nb_of n w) /\
      Forall2 (emits c) (reads w c (nb_of n w)) data.
Proof.
  intros Hcopy.
  destruct (work_copy_ok _ _ _ Hcopy) as (cs & datas & Hcs & Hall & ->).
  cbn [outs]. split; [apply length_write_streams|].
  intros i strm Hi.
  apply stream_channels_active in Hcs as [Hlen ->].
  pose proof (lookup_lt_Some _ _ _ Hi) as Hlt.
  destruct (lookup_lt_is_Some_2 (take (length (outs w)) active_channels) i)
    as [c Hc]; [rewrite length_take; lia|].
  destruct (Forall2_lookup_l _ _ _ _ _ Hall Hc) as (data & Hdata & Hcopyc).
  apply copy_samples_ok in Hcopyc as (Hlend & Hemit & _).
  exists c, data. split; [by apply lookup_take_Some in Hc as [? _]|].
  split.
  { pose proof (lookup_write_streams 0 i datas data (outs w) Hdata) as Hw.
    simpl in Hw. rewrite Hw, Hi. done. }
  split; [done|]. unfold reads. simpl in Hemit. done.
Qed.

(** The three ways a call of [work] goes on from its entry. *)
Lemma work_call_cases n w w' :
  work_call n w = Ok w' ->
  (d_thread_stopped w = true /\ w' = work_eos w) \/
  (d_thread_stopped w = false /\
     (d_items_in_buffer w = 0 \/ d_empty_buffer w = true) /\
     w' = set_wpc (WWaiting n) (set_empty_buffer true w)) \/
  (d_thread_stopped w = false /\ d_items_in_buffer w <> 0 /\
     d_empty_buffer w = false /\ work_copy n w = Ok w').
Proof.
  unfold work_call. destruct (d_thread_stopped w); [intros [= <-]; by left|].
  destruct (decide (d_items_in_buffer w = 0)) as [H0|H0].
  - cbn [set_empty_buffer d_empty_buffer]. intros [= <-]. right. left. tauto.
  - destruct (d_empty_buffer w) eqn:He.
    + intros [= <-]. right. left. split; [done|]. split; [by right|].
      destruct w; simpl in *; by subst.
    + intros Hcopy. right. right. done.
Qed.

(** The three ways a return of [wait_for] goes on. *)
Lemma work_wake_cases n w w' :
  work_wake n w = Ok w' ->
  (d_thread_stopped w = true /\ w' = work_eos w) \/
  (d_thread_stopped w = false /\ d_empty_buffer w = true /\
     w' = publish_timeout w) \/
  (d_thread_stopped w = false /\ d_empty_buffer w = false /\
     work_copy n w = Ok w').
Proof.
  unfold work_wake. destruct (d_thread_stopped w); [intros [= <-]; by left|].
  destruct (d_empty_buffer w); cbn [negb].
  - intros [= <-]. right. by left.
  - intros Hcopy. right. by right.
Qed.

Lemma work_copy_fields n (w w' : world) :
  work_copy n w = Ok w' ->
  d_samples w' = d_samples w /\
  d_items_in_buffer w' = d_items_in_buffer w - nb_of n w /\
  d_sample_index w' = d_sample_index w + nb_of n w /\
  d_empty_buffer w' = d_empty_buffer w /\
  d_thread_stopped w' = d_thread_stopped w /\
  rpc w' = rpc w /\ wpc w' = WIdle /\
  msgs w' = msgs w /\ rets w' = rets w ++ [to_int (nb_of n w)] /\
  fetched w' = fetched w /\
  tags w' = tags w ++ start_tags w (outs w) 0 (length (outs w)) /\
  length (outs w') = length (outs w).
Proof.
  intros Hcopy.
  destruct (work_copy_ok _ _ _ Hcopy) as (cs & datas & _ & _ & ->).
  cbn. rewrite length_write_streams. tauto.
Qed.

Lemma nb_of_bounds n (w : world) :
  0 <= d_items_in_buffer w -> 0 <= nb_of n w <= d_items_in_buffer w.
Proof. intros. pose proof (to_ulong_nonneg n). unfold nb_of. lia. Qed.

Lemma nb_of_small n (w : world) :
  0 <= n -> int_range n -> nb_of n w = Z.min (d_items_in_buffer w) n.
Proof. intros. unfold nb_of. by rewrite to_ulong_small. Qed.

Lemma well_formed_work_copy n (w w' : world) :
  well_formed w -> work_copy n w = Ok w' -> well_formed w'.
Proof.
  intros (Hidx & Hitems & Hlen & Hrows) Hcopy.
  destruct (work_copy_fields _ _ _ Hcopy)
    as (Hs & Hi & Hx & _ & _ & _ & _ & _ & _ & _ & _ & Hl).
  pose proof (nb_of_bounds n w Hitems).
  unfold well_formed. rewrite Hs, Hi, Hx, Hl.
  split; [lia|]. split; [lia|]. split; [done|].
  eapply Forall_impl; [exact Hrows|]. intros c [Hrow Hcast]. cbn beta.
  split; [|done]. rewrite Hrow. f_equal. lia.
Qed.

Lemma step_work_idle n (w : world) :
  wpc w = WIdle -> step (LWork n) w = result_to_option (work_call n w).
Proof. intros H. cbn [step]. by rewrite H. Qed.

Lemma work_call_copy n (w : world) :
  d_thread_stopped w = false -> d_empty_buffer w = false ->
  d_items_in_buffer w <> 0 -> work_call n w = work_copy n w.
Proof.
  intros Hs He Hi. unfold work_call. rewrite Hs.
  rewrite decide_False by done. by rewrite He.
Qed.

(** C3: a call that comes to the computation of [nb_samples] asking for
    fewer items than the installed block still holds, be it at its entry
    or after it waited for the block, returns exactly the requested count,
    copies exactly that many samples of each channel from the read cursor
    on, takes exactly that many items off the remaining count, and leaves
    the block in place: the refill thread cannot pass its wait, and the
    next call copies from the same block, from where this one stopped. *)
Theorem work_partial_read (n : Z) (l : label) (w : world) :
  (l = LWork n /\ wpc w = WIdle) \/
  (exists ms, l = LWorkWake ms /\ wpc w = WWaiting n /\
              0 <= ms <= wait_for_ms) ->
  d_thread_stopped w = false -> d_empty_buffer w = false ->
  well_formed w -> 0 <= n < d_items_in_buffer w -> int_range n ->
  exists w',
    step l w = Some w' /\
    wpc w' = WIdle /\
    rets w' = rets w ++ [n] /\
    d_items_in_buffer w' = d_items_in_buffer w - n /\
    d_sample_index w' = d_sample_index w + n /\
    (forall i strm, outs w !! i = Some strm ->
       exists c data,
         active_channels !! i = Some c /\
         outs w' !! i = Some (strm ++ data) /\
         length data = Z.to_nat n /\
         Forall2 (emits c)
           (take (Z.to_nat n)
              (drop (Z.to_nat (d_sample_index w)) (row_of (d_samples w) c)))
           data) /\
    d_samples w' = d_samples w /\ fetched w' = fetched w /\
    d_empty_buffer w' = false /\
    (forall l' w'', l' = LRefillHead \/ l' = LRefillWake ->
       step l' w' = Some w'' -> rpc w'' <> RFetching) /\
    forall n2, 0 <= n2 -> int_range n2 ->
      exists w'',
        step (LWork n2) w' = Some w'' /\
        wpc w'' = WIdle /\
        d_samples w'' = d_samples w /\ fetched w'' = fetched w /\
        rets w'' = rets w' ++ [Z.min (d_items_in_buffer w - n) n2] /\
        forall i strm, outs w' !! i = Some strm ->
          exists c data,
            active_channels !! i = Some c /\
            outs w'' !! i = Some (strm ++ data) /\
            Forall2 (emits c)
              (take (Z.to_nat (Z.min (d_items_in_buffer w - n) n2))
                 (drop (Z.to_nat (d_sample_index w + n))
                    (row_of (d_samples w) c))) data.
Proof.
  intros Hreach Hstop Hempty Hwf Hn Hint.
  destruct (work_copy_total n w Hwf) as [w' Hcopy].
  pose proof (work_copy_fields _ _ _ Hcopy)
    as (Hs & Hi & Hx & He & Ht & Hr & Hw & _ & Hret & Hf & _ & Hl).
  pose proof (well_formed_work_copy _ _ _ Hwf Hcopy) as Hwf'.
  assert (Hnb : nb_of n w = n) by (rewrite nb_of_small by (done || lia); lia).
  rewrite Hnb in *. rewrite to_int_small in Hret by done.
  exists w'. split.
  { destruct Hreach as [[-> Hidle] | (ms & -> & Hwait & Hms)].
    - rewrite step_work_idle by done. rewrite work_call_copy by (done || lia).
      by rewrite Hcopy.
    - cbn [step]. rewrite Hwait, Hempty. unfold wait_for_returns. cbn [negb].
      rewrite (proj2 (Z.leb_le 0 ms)) by lia.
      rewrite (proj2 (Z.leb_le ms wait_for_ms)) by lia. cbn [andb orb].
      unfold work_wake. rewrite Hstop, Hempty. cbn [negb]. by rewrite Hcopy. }
  split; [done|]. split; [done|]. split; [done|]. split; [done|]. split.
  { intros i strm Hi'.
    destruct (work_copy_streams _ _ _ Hcopy) as [_ Hstr].
    destruct (Hstr i strm Hi') as (c & data & Hc & Ho & Hld & Hem).
    rewrite Hnb in Hld, Hem. unfold reads in Hem. eauto 10. }
  split; [done|]. split; [done|]. split; [congruence|]. split.
  { intros l' w'' [-> | ->]; cbn [step]; destruct (rpc w'); try done.
    - intros [= <-]. unfold refill_head. rewrite Ht, Hstop, He, Hempty. done.
    - rewrite He, Hempty. done. }
  intros n2 Hn2 Hint2.
  destruct (work_copy_total n2 w' Hwf') as [w'' Hcopy2].
  pose proof (work_copy_fields _ _ _ Hcopy2)
    as (Hs2 & _ & _ & _ & _ & _ & Hw2 & _ & Hret2 & Hf2 & _ & _).
  assert (Hnb2 : nb_of n2 w' = Z.min (d_items_in_buffer w - n) n2).
  { rewrite nb_of_small by done. by rewrite Hi. }
  rewrite Hnb2 in Hret2. rewrite to_int_small in Hret2 by (unfold int_range in *; lia).
  exists w''. split.
  { rewrite step_work_idle by done.
    rewrite work_call_copy by (congruence || lia). by rewrite Hcopy2. }
  split; [done|]. split; [congruence|]. split; [congruence|]. split; [done|].
  intros i strm Hi'.
  destruct (work_copy_streams _ _ _ Hcopy2) as [_ Hstr].
  destruct (Hstr i strm Hi') as (c & data & Hc & Ho & _ & Hem).
  exists c, data. split; [done|]. split; [done|].
  unfold reads in Hem. by rewrite Hnb2, Hx, Hs in Hem.
Qed.

(** *** A failed fetch *)

Lemma stopped_step l (w w' : world) :
  no_restart l -> step l w = Some w' ->
  d_thread_stopped w = true -> rpc w = RDone \/ rpc w = RNone ->
  d_thread_stopped w' = true /\ (rpc w' = RDone \/ rpc w' = RNone) /\
  fetched w' = fetched w /\ outs w' = outs w /\ tags w' = tags w /\
  d_samples w' = d_samples w.
Proof.
  intros Hl Hstep Hs Hr.
  destruct l; cbn [step no_restart] in *; try done.
  - injection Hstep as <-. cbn. tauto.
  - destruct (rpc w); try done. injection Hstep as <-. cbn. tauto.
  - destruct Hr as [Hr|Hr]; rewrite Hr in Hstep; done.
  - destruct Hr as [Hr|Hr]; rewrite Hr in Hstep; done.
  - destruct Hr as [Hr|Hr]; rewrite Hr in Hstep; done.
  - destruct Hr as [Hr|Hr]; rewrite Hr in Hstep; done.
  - destruct Hr as [Hr|Hr]; rewrite Hr in Hstep; done.
  - destruct (wpc w); [|done]. unfold work_call in Hstep. rewrite Hs in Hstep.
    injection Hstep as <-. cbn. tauto.
  - destruct (wpc w); [done|]. destruct (wait_for_returns _ _); [|done].
    unfold work_wake in Hstep. rewrite Hs in Hstep.
    injection Hstep as <-. cbn. tauto.
Qed.

Lemma stopped_exec ls (w w' : world) :
  Forall no_restart ls -> exec ls w = Some w' ->
  d_thread_stopped w = true -> rpc w = RDone \/ rpc w = RNone ->
  d_thread_stopped w' = true /\ (rpc w' = RDone \/ rpc w' = RNone) /\
  fetched w' = fetched w /\ outs w' = outs w /\ tags w' = tags w /\
  d_samples w' = d_samples w.
Proof.
  revert w. induction ls as [|l ls IH]; intros w Hls Hexec Hs Hr; cbn in Hexec.
  - injection Hexec as <-. tauto.
  - apply Forall_cons in Hls as [Hl Hls].
    destruct (step l w) as [w1|] eqn:Hstep; [|done].
    destruct (stopped_step _ _ _ Hl Hstep Hs Hr) as (Hs1 & Hr1 & Hf & Ho & Ht & Hd).
    destruct (IH _ Hls Hexec Hs1 Hr1) as (? & ? & ? & ? & ? & ?).
    repeat split; try done; congruence.
Qed.

(** C4: when [getSamplesRaw] throws, the refill thread sets the stopped
    flag and leaves its loop without a fault of its own.  From then on,
    whatever the two threads and [stop] do and until the block is started
    again, no block is fetched, the flag stays set, and every call of [work]
    (a new one, or one woken from its wait) returns -1 with nothing written
    to any stream. *)
Theorem fetch_failure_ends_stream (w : world) :
  rpc w = RFetching ->
  exists w1,
    step LFetchFail w = Some w1 /\
    d_thread_stopped w1 = true /\ rpc w1 = RDone /\
    fetched w1 = fetched w /\ outs w1 = outs w /\
    forall ls w2, Forall no_restart ls -> exec ls w1 = Some w2 ->
      d_thread_stopped w2 = true /\ (rpc w2 = RDone \/ rpc w2 = RNone) /\
      fetched w2 = fetched w /\ outs w2 = outs w /\ tags w2 = tags w /\
      (forall n, wpc w2 = WIdle ->
         exists w3, step (LWork n) w2 = Some w3 /\
           rets w3 = rets w2 ++ [-1] /\ outs w3 = outs w2 /\ wpc w3 = WIdle) /\
      (forall n, wpc w2 = WWaiting n ->
         exists w3, step (LWorkWake wait_for_ms) w2 = Some w3 /\
           rets w3 = rets w2 ++ [-1] /\ outs w3 = outs w2 /\
           msgs w3 = msgs w2 /\ wpc w3 = WIdle).
Proof.
  intros Hr. exists (fetch_fail w).
  split; [cbn [step]; by rewrite Hr|].
  split; [done|]. split; [done|]. split; [done|]. split; [done|].
  intros ls w2 Hls Hexec.
  destruct (stopped_exec _ _ _ Hls Hexec) as (Hs & Hr2 & Hf & Ho & Ht & _);
    [done | by left |].
  cbn in Hf, Ho, Ht.
  split; [done|]. split; [done|]. split; [done|]. split; [done|]. split; [done|].
  split.
  - intros n Hidle. exists (work_eos w2). rewrite step_work_idle by done.
    unfold work_call. rewrite Hs. done.
  - intros n Hwait. exists (work_eos w2). cbn [step]. rewrite Hwait.
    assert (Hret : wait_for_returns (d_empty_buffer w2) wait_for_ms = true).
    { unfold wait_for_returns, wait_for_ms. destruct (d_empty_buffer w2); done. }
    rewrite Hret. unfold work_wake. rewrite Hs. done.
Qed.

(** *** The bounded wait *)

Lemma wait_for_returns_timeout : wait_for_returns true wait_for_ms = true.
Proof. done. Qed.

Lemma timeouts_exec k n (w : world) :
  wpc w = WWaiting n -> d_thread_stopped w = false -> d_empty_buffer w = true ->
  exists w',
    exec (replicate k (LWorkWake wait_for_ms)) w = Some w' /\
    wpc w' = WWaiting n /\ d_thread_stopped w' = false /\
    d_empty_buffer w' = true /\
    msgs w' = msgs w ++ replicate k "timeout"%string /\
    rets w' = rets w /\ outs w' = outs w.
Proof.
  revert w. induction k as [|k IH]; intros w Hw Hs He.
  - exists w. cbn. rewrite app_nil_r. tauto.
  - cbn [replicate exec step]. rewrite Hw, He, wait_for_returns_timeout.
    unfold work_wake. rewrite Hs, He. cbn [negb result_to_option].
    destruct (IH (publish_timeout w)) as (w' & Hexec & ? & ? & ? & Hm & ? & ?);
      try done.
    exists w'. split; [done|]. cbn in Hm.
    rewrite <- app_assoc in Hm. repeat split; done.
Qed.

Lemma waited_ms_timeouts k :
  waited_ms (sample := sample) (replicate k (LWorkWake wait_for_ms))
  = Z.of_nat k * wait_for_ms.
Proof.
  induction k as [|k IH]; [done|].
  cbn [replicate waited_ms foldr]. fold (waited_ms (sample := sample)
    (replicate k (LWorkWake wait_for_ms))). rewrite IH. lia.
Qed.

(** C7, as the code has it: a call of [work] that finds no items sets the
    empty flag and waits, for at most [wait_for_ms] = 100 ms at a time.
    When the wait returns with the stopped flag set, the call returns -1 and
    publishes nothing; when it returns with the buffer still empty, the
    timeout has run out, exactly one "timeout" message is published and the
    call waits again instead of returning; when it returns with the buffer
    refilled, the call copies and publishes nothing.  So after [k] timeouts
    in a row, [k] times 100 ms have passed, [k] messages were published, and
    the call has not returned. *)
Theorem bounded_wait_loop (n : Z) (w : world) :
  wait_for_ms = 100 /\
  (wpc w = WIdle -> d_thread_stopped w = false -> d_items_in_buffer w = 0 ->
     step (LWork n) w = Some (set_wpc (WWaiting n) (set_empty_buffer true w))) /\
  (wpc w = WWaiting n ->
     (forall ms w', step (LWorkWake ms) w = Some w' ->
        0 <= ms <= wait_for_ms /\
        (d_empty_buffer w = true -> ms = wait_for_ms)) /\
     (d_thread_stopped w = true -> forall ms w',
        step (LWorkWake ms) w = Some w' ->
        wpc w' = WIdle /\ rets w' = rets w ++ [-1] /\
        msgs w' = msgs w /\ outs w' = outs w) /\
     (d_thread_stopped w = false -> d_empty_buffer w = true ->
        step (LWorkWake wait_for_ms) w = Some (publish_timeout w) /\
        forall k, exists w',
          exec (replicate k (LWorkWake wait_for_ms)) w = Some w' /\
          waited_ms (sample := sample) (replicate k (LWorkWake wait_for_ms))
            = Z.of_nat k * 100 /\
          wpc w' = WWaiting n /\
          msgs w' = msgs w ++ replicate k "timeout"%string /\
          rets w' = rets w /\ outs w' = outs w) /\
     (d_thread_stopped w = false -> d_empty_buffer w = false -> forall ms w',
        step (LWorkWake ms) w = Some w' ->
        work_copy n w = Ok w' /\ wpc w' = WIdle /\ msgs w' = msgs w)).
Proof.
  split; [done|]. split.
  { intros Hidle Hs Hi. rewrite step_work_idle by done.
    unfold work_call. rewrite Hs. rewrite decide_True by done. done. }
  intros Hw. split.
  { intros ms w'. cbn [step]. rewrite Hw. unfold wait_for_returns.
    destruct (d_empty_buffer w); cbn [negb orb];
      destruct (0 <=? ms) eqn:H0; destruct (ms <=? wait_for_ms) eqn:H1;
      cbn [andb]; try done.
    - destruct (ms =? wait_for_ms) eqn:H2; [|done]. intros _. lia.
    - intros _. split; [lia|done]. }
  split.
  { intros Hs ms w'. cbn [step]. rewrite Hw.
    destruct (wait_for_returns _ _); [|done].
    unfold work_wake. rewrite Hs. intros [= <-]. done. }
  split.
  { intros Hs He. split.
    - cbn [step]. rewrite Hw, He, wait_for_returns_timeout.
      unfold work_wake. rewrite Hs, He. done.
    - intros k. destruct (timeouts_exec k n w Hw Hs He)
        as (w' & Hexec & ? & _ & _ & ? & ? & ?).
      exists w'. rewrite waited_ms_timeouts. done. }
  intros Hs He ms w'. cbn [step]. rewrite Hw.
  destruct (wait_for_returns _ _); [|done].
  unfold work_wake. rewrite Hs, He. cbn [negb].
  destruct (work_copy n w) as [w1|] eqn:Hcopy; [|done].
  intros [= <-].
  destruct (work_copy_fields _ _ _ Hcopy) as (_ & _ & _ & _ & _ & _ & ? & ? & _).
  done.
Qed.

(** *** Between [start] and [stop] *)

Lemma total0_app (b1 b2 : list (list (list sample))) :
  total0 (b1 ++ b2) = total0 b1 + total0 b2.
Proof.
  unfold total0. induction b1 as [|b b1 IH]; simpl; lia.
Qed.

Lemma total0_snoc (b1 : list (list (list sample))) blk :
  total0 (b1 ++ [blk]) = total0 b1 + len0 blk.
Proof. rewrite total0_app. unfold total0. simpl. lia. Qed.

Lemma work_copy_lengths n (w w' : world) :
  work_copy n w = Ok w' ->
  Forall2 (fun strm strm' =>
             length strm' = (length strm + Z.to_nat (nb_of n w))%nat)
    (outs w) (outs w').
Proof.
  intros Hcopy. destruct (work_copy_streams _ _ _ Hcopy) as [Hlen Hstr].
  apply Forall2_same_length_lookup. split; [done|].
  intros i strm strm' Hi Hi'.
  destruct (Hstr i strm Hi) as (c & data & _ & Ho & Hld & _).
  rewrite Ho in Hi'. injection Hi' as <-. rewrite length_app. lia.
Qed.

Lemma fresh_blank (w0 : world) : fresh w0 -> blank w0.
Proof. intros (Hf & Ho & Ht & _). done. Qed.

Lemma base_inv_start_blank (w0 : world) : blank w0 -> base_inv (start w0).
Proof.
  intros (Hf & Ho & _). split; cbn; try done; try (intros [?|?]; done).
  unfold written. cbn. rewrite Hf. cbn.
  eapply Forall_impl; [exact Ho|]. by intros strm ->.
Qed.

Lemma base_inv_start (w0 : world) : fresh w0 -> base_inv (start w0).
Proof. intros Hfresh. by apply base_inv_start_blank, fresh_blank. Qed.

Lemma base_inv_copy n (w w' : world) :
  base_inv w -> d_empty_buffer w = false -> work_copy n w = Ok w' ->
  base_inv w'.
Proof.
  intros [Hfl Hem Hit Hix Heq Hla Hle] He Hcopy.
  pose proof (work_copy_fields _ _ _ Hcopy)
    as (Hs & Hi & Hx & He' & Ht & Hr & Hw & _ & _ & Hf & _ & _).
  pose proof (nb_of_bounds n w Hit) as Hnb.
  assert (Hnf : rpc w <> RFetched).
  { intros Hr'. rewrite Hfl in He by (by right). done. }
  split.
  - rewrite Hr, He'. done.
  - rewrite He', He. done.
  - lia.
  - intros _. specialize (Hix He). lia.
  - intros _. specialize (Heq He). unfold buffer_equation in *.
    rewrite Hs, Hi, Hx. lia.
  - rewrite Hr, He', Hs, Hf. done.
  - pose proof (work_copy_lengths _ _ _ Hcopy) as Hlens.
    apply Forall_forall. intros strm' Hin.
    apply list_elem_of_lookup in Hin as [i Hin].
    destruct (Forall2_lookup_r _ _ _ _ _ Hlens Hin) as (strm & Hstrm & Hlen).
    pose proof (proj1 (Forall_forall _ _) Hle strm
                  (list_elem_of_lookup_2 _ _ _ Hstrm)) as Hold.
    unfold written in *. rewrite Hf, Hr, Hi.
    destruct (rpc w); try done; lia.
Qed.

Lemma written_frame (w w' : world) :
  d_samples w' = d_samples w -> d_items_in_buffer w' = d_items_in_buffer w ->
  fetched w' = fetched w -> (rpc w' = RFetched <-> rpc w = RFetched) ->
  written w' = written w.
Proof.
  intros Hs Hi Hf Hr. unfold written. rewrite Hs, Hi, Hf.
  destruct (rpc w) eqn:H1; destruct (rpc w') eqn:H2; try done;
    try (by destruct Hr as [Hr _]; specialize (Hr eq_refl));
    try (by destruct Hr as [_ Hr]; specialize (Hr eq_refl)).
Qed.

(** A step that leaves the buffer alone. *)
Lemma base_inv_frame (w w' : world) :
  base_inv w ->
  d_samples w' = d_samples w -> d_items_in_buffer w' = d_items_in_buffer w ->
  d_sample_index w' = d_sample_index w -> d_empty_buffer w' = d_empty_buffer w ->
  fetched w' = fetched w -> outs w' = outs w ->
  (rpc w' = RFetched <-> rpc w = RFetched) ->
  (rpc w' = RFetching -> rpc w = RFetching \/ d_empty_buffer w = true) ->
  base_inv w'.
Proof.
  intros [Hfl Hem Hit Hix Heq Hla Hle] Hs Hi Hx He Hf Ho Hr Hr'.
  split.
  - rewrite He. intros [H|H]; [destruct (Hr' H); auto|].
    apply Hfl. right. by apply Hr.
  - rewrite He, Hi. done.
  - rewrite Hi. done.
  - rewrite He, Hx. done.
  - rewrite He. unfold buffer_equation. rewrite Hx, Hi, Hs. done.
  - rewrite He, Hf, Hs. intros [H|H]; apply Hla; [by left|]. right. by apply Hr.
  - rewrite Ho, (written_frame w w') by done. done.
Qed.

Lemma base_inv_step l (w w' : world) :
  session_label l -> step l w = Some w' -> base_inv w -> base_inv w'.
Proof.
  intros Hl Hstep Hinv.
  destruct l; cbn [step session_label] in *; try done.
  - (* head of the refill loop *)
    destruct (rpc w) eqn:Hr; try done. injection Hstep as <-.
    apply (base_inv_frame w); try done; unfold refill_head;
      destruct (d_thread_stopped w); destruct (d_empty_buffer w) eqn:He;
      rewrite ?Hr; frame_side.
  - (* the refill wait returns *)
    destruct (rpc w) eqn:Hr; try done.
    destruct (d_empty_buffer w) eqn:He; [|done]. injection Hstep as <-.
    apply (base_inv_frame w); try done; rewrite ?Hr; frame_side.
  - (* a block is fetched *)
    destruct Hinv as [Hfl Hem Hit Hix Heq Hla Hle].
    destruct (rpc w) eqn:Hr; try done. injection Hstep as <-.
    assert (He : d_empty_buffer w = true) by (apply Hfl; by left).
    split; cbn.
    + done.
    + done.
    + done.
    + rewrite He. done.
    + rewrite He. done.
    + intros _. eauto.
    + unfold written in *. cbn -[total0]. rewrite Hr in Hle.
      rewrite total0_snoc. rewrite (Hem He) in Hle.
      eapply Forall_impl; [exact Hle|]. intros strm Hs. cbn beta in *. lia.
  - (* the fetch fails *)
    destruct (rpc w) eqn:Hr; try done. injection Hstep as <-.
    apply (base_inv_frame w); try done; rewrite ?Hr; frame_side.
  - (* the block is installed *)
    destruct Hinv as [Hfl Hem Hit Hix Heq Hla Hle].
    destruct (rpc w) eqn:Hr; try done. unfold install in Hstep.
    destruct (d_samples w) as [|row0 rest] eqn:Hd; [done|].
    injection Hstep as <-.
    split; cbn.
    + intros [?|?]; done.
    + done.
    + lia.
    + done.
    + intros _. unfold buffer_equation, len0, row_of. cbn. lia.
    + intros _. apply Hla. by right.
    + unfold written in *. cbn -[total0]. rewrite Hr, Hd in Hle. done.
  - (* work is called *)
    destruct (wpc w); [|done].
    destruct (work_call noutput_items w) as [w1|] eqn:Hcall; [|done].
    injection Hstep as <-.
    destruct (work_call_cases _ _ _ Hcall)
      as [[Hs ->] | [(Hs & Hcase & ->) | (Hs & Hi & He & Hcopy)]].
    + apply (base_inv_frame w); try done; frame_side.
    + destruct Hinv as [Hfl Hem Hit Hix Heq Hla Hle].
      assert (Hi : d_items_in_buffer w = 0) by (destruct Hcase; auto).
      split; cbn.
      * done.
      * done.
      * done.
      * done.
      * done.
      * intros [?|?]; [done|]. apply Hla. by right.
      * done.
    + by eapply base_inv_copy.
  - (* the wait of work returns *)
    destruct (wpc w) as [|n]; [done|].
    destruct (wait_for_returns _ _); [|done].
    destruct (work_wake n w) as [w1|] eqn:Hwake; [|done].
    injection Hstep as <-.
    destruct (work_wake_cases _ _ _ Hwake)
      as [[Hs ->] | [(Hs & He & ->) | (Hs & He & Hcopy)]].
    + apply (base_inv_frame w); try done; frame_side.
    + apply (base_inv_frame w); try done; frame_side.
    + by eapply base_inv_copy.
Qed.

Lemma base_inv_exec ls (w w' : world) :
  Forall session_label ls -> exec ls w = Some w' -> base_inv w -> base_inv w'.
Proof.
  revert w. induction ls as [|l ls IH]; intros w Hls Hexec Hinv; cbn in Hexec.
  - by injection Hexec as <-.
  - apply Forall_cons in Hls as [Hl Hls].
    destruct (step l w) as [w1|] eqn:Hstep; [|done].
    eapply IH; [done | done |]. by eapply base_inv_step.
Qed.

(** *** The buffer equation over the whole life of the block *)

Lemma buffer_equation_copy n (w w' : world) :
  work_copy n w = Ok w' -> buffer_equation w -> buffer_equation w'.
Proof.
  intros Hcopy Heq.
  pose proof (work_copy_fields _ _ _ Hcopy) as (Hs & Hi & Hx & _).
  unfold buffer_equation in *. rewrite Hs, Hi, Hx. lia.
Qed.

Lemma buffer_equation_work l (w w' : world) :
  (exists n, l = LWork n) \/ (exists ms, l = LWorkWake ms) ->
  step l w = Some w' -> buffer_equation w -> buffer_equation w'.
Proof.
  intros [[n ->] | [ms ->]] Hstep Heq; cbn [step] in Hstep.
  - destruct (wpc w); [|done].
    destruct (work_call n w) as [w1|] eqn:Hcall; [|done].
    injection Hstep as <-.
    destruct (work_call_cases _ _ _ Hcall)
      as [[Hs ->] | [(Hs & Hcase & ->) | (Hs & Hi & He & Hcopy)]];
      [done | done | by eapply buffer_equation_copy].
  - destruct (wpc w) as [|n]; [done|].
    destruct (wait_for_returns _ _); [|done].
    destruct (work_wake n w) as [w1|] eqn:Hwake; [|done].
    injection Hstep as <-.
    destruct (work_wake_cases _ _ _ Hwake)
      as [[Hs ->] | [(Hs & He & ->) | (Hs & He & Hcopy)]];
      [done | done | by eapply buffer_equation_copy].
Qed.

Lemma buffer_equation_install (w w' : world) :
  step LInstall w = Some w' ->
  buffer_equation w' /\ d_empty_buffer w' = false /\ d_sample_index w' = 0.
Proof.
  cbn [step]. destruct (rpc w); try done. unfold install.
  destruct (d_samples w) as [|row0 rest] eqn:Hd; [done|].
  intros [= <-]. unfold buffer_equation, len0, row_of. cbn. split; [lia|done].
Qed.

Lemma filled_inv_step l (w w' : world) :
  step l w = Some w' -> filled_inv w -> filled_inv w'.
Proof.
  intros Hstep [Heq Hfl].
  destruct l; cbn [step] in Hstep.
  - destruct (rpc w); try done. injection Hstep as <-. split; cbn; [done|].
    intros [?|?]; done.
  - injection Hstep as <-. split; cbn; done.
  - destruct (rpc w) eqn:Hr; try done. injection Hstep as <-.
    split; cbn; [done|]. intros [?|?]; done.
  - destruct (rpc w) eqn:Hr; try done. injection Hstep as <-.
    unfold refill_head.
    destruct (d_thread_stopped w); [|destruct (d_empty_buffer w) eqn:He];
      (split; cbn; [by rewrite ?He in * |]); rewrite ?He;
      first [done | intros [?|?]; done].
  - destruct (rpc w) eqn:Hr; try done.
    destruct (d_empty_buffer w) eqn:He; [|done]. injection Hstep as <-.
    split; cbn; rewrite ?He; done.
  - destruct (rpc w) eqn:Hr; try done. injection Hstep as <-.
    assert (He : d_empty_buffer w = true) by (apply Hfl; by left).
    split; cbn; rewrite He; done.
  - destruct (rpc w) eqn:Hr; try done. injection Hstep as <-.
    split; cbn; [done|]. intros [?|?]; done.
  - destruct (buffer_equation_install _ _ Hstep) as (? & He & _).
    split; [done|]. cbn [step] in Hstep. destruct (rpc w); try done.
    unfold install in Hstep. destruct (d_samples w); [done|].
    injection Hstep as <-. cbn. intros [?|?]; done.
  - destruct (wpc w); [|done].
    destruct (work_call noutput_items w) as [w1|] eqn:Hcall; [|done].
    injection Hstep as <-.
    destruct (work_call_cases _ _ _ Hcall)
      as [[Hs ->] | [(Hs & Hcase & ->) | (Hs & Hi & He & Hcopy)]].
    + split; done.
    + split; cbn; done.
    + pose proof (work_copy_fields _ _ _ Hcopy) as (_ & _ & _ & He' & _ & Hr & _).
      split; [|by rewrite Hr, He'].
      intros _. eapply buffer_equation_copy; [done|]. by apply Heq.
  - destruct (wpc w) as [|n]; [done|].
    destruct (wait_for_returns _ _); [|done].
    destruct (work_wake n w) as [w1|] eqn:Hwake; [|done].
    injection Hstep as <-.
    destruct (work_wake_cases _ _ _ Hwake)
      as [[Hs ->] | [(Hs & He & ->) | (Hs & He & Hcopy)]].
    + split; done.
    + split; done.
    + pose proof (work_copy_fields _ _ _ Hcopy) as (_ & _ & _ & He' & _ & Hr & _).
      split; [|by rewrite Hr, He'].
      intros _. eapply buffer_equation_copy; [done|]. by apply Heq.
Qed.

Lemma filled_inv_exec ls (w w' : world) :
  exec ls w = Some w' -> filled_inv w -> filled_inv w'.
Proof.
  revert w. induction ls as [|l ls IH]; intros w Hexec Hinv; cbn in Hexec.
  - by injection Hexec as <-.
  - destruct (step l w) as [w1|] eqn:Hstep; [|done].
    eapply IH; [done|]. by eapply filled_inv_step.
Qed.

(** C2, as the code has it: whenever the empty flag is clear (a fetched
    block is installed and [work] has not handed the buffer back), read
    cursor plus remaining count is the item count of the installed block,
    whatever [start], [stop] and the two threads have done before; a call
    of [work] keeps the equation, and the refill thread establishes it when
    it installs a block. *)
Theorem buffer_equation_when_filled :
  (forall ls (w0 w : world),
     exec (LStart :: ls) w0 = Some w ->
     d_empty_buffer w = false -> buffer_equation w) /\
  (forall l (w w' : world),
     (exists n, l = LWork n) \/ (exists ms, l = LWorkWake ms) ->
     step l w = Some w' -> buffer_equation w -> buffer_equation w') /\
  (forall w w' : world,
     step LInstall w = Some w' ->
     buffer_equation w' /\ d_empty_buffer w' = false /\ d_sample_index w' = 0).
Proof.
  split; [|split].
  - intros ls w0 w Hexec He. cbn [exec step] in Hexec.
    destruct (rpc w0); try done.
    assert (Hinit : filled_inv (start w0)).
    { split; cbn; [done|]. intros [?|?]; done. }
    by apply (filled_inv_exec _ _ _ Hexec Hinit).
  - apply buffer_equation_work.
  - apply buffer_equation_install.
Qed.

(** *** What the streams hold *)

Lemma stream_of_snoc c (blocks : list (list (list sample))) blk :
  stream_of c (blocks ++ [blk]) = stream_of c blocks ++ row_of blk c.
Proof.
  unfold stream_of. rewrite fmap_app, concat_app. cbn. by rewrite app_nil_r.
Qed.

Lemma step_fetched l (w w' : world) :
  step l w = Some w' -> exists more, fetched w' = fetched w ++ more.
Proof.
  intros Hstep. destruct l; cbn [step] in Hstep.
  - destruct (rpc w); try done. injection Hstep as <-. exists []. cbn.
    by rewrite app_nil_r.
  - injection Hstep as <-. exists []. cbn. by rewrite app_nil_r.
  - destruct (rpc w); try done. injection Hstep as <-. exists []. cbn.
    by rewrite app_nil_r.
  - destruct (rpc w); try done. injection Hstep as <-. exists [].
    unfold refill_head. rewrite app_nil_r.
    destruct (d_thread_stopped w); [|destruct (d_empty_buffer w)]; done.
  - destruct (rpc w); try done. destruct (d_empty_buffer w); [|done].
    injection Hstep as <-. exists []. cbn. by rewrite app_nil_r.
  - destruct (rpc w); try done. injection Hstep as <-. exists [blk]. done.
  - destruct (rpc w); try done. injection Hstep as <-. exists []. cbn.
    by rewrite app_nil_r.
  - destruct (rpc w); try done. unfold install in Hstep.
    destruct (d_samples w); [done|]. injection Hstep as <-. exists []. cbn.
    by rewrite app_nil_r.
  - destruct (wpc w); [|done].
    destruct (work_call noutput_items w) as [w1|] eqn:Hcall; [|done].
    injection Hstep as <-. exists []. rewrite app_nil_r.
    destruct (work_call_cases _ _ _ Hcall)
      as [[Hs ->] | [(Hs & Hcase & ->) | (Hs & Hi & He & Hcopy)]]; [done|done|].
    by destruct (work_copy_fields _ _ _ Hcopy) as (_&_&_&_&_&_&_&_&_&?&_).
  - destruct (wpc w) as [|n]; [done|].
    destruct (wait_for_returns _ _); [|done].
    destruct (work_wake n w) as [w1|] eqn:Hwake; [|done].
    injection Hstep as <-. exists []. rewrite app_nil_r.
    destruct (work_wake_cases _ _ _ Hwake)
      as [[Hs ->] | [(Hs & He & ->) | (Hs & He & Hcopy)]]; [done|done|].
    by destruct (work_copy_fields _ _ _ Hcopy) as (_&_&_&_&_&_&_&_&_&?&_).
Qed.

Lemma exec_fetched ls (w w' : world) :
  exec ls w = Some w' -> exists more, fetched w' = fetched w ++ more.
Proof.
  revert w. induction ls as [|l ls IH]; intros w Hexec; cbn in Hexec.
  - injection Hexec as <-. exists []. by rewrite app_nil_r.
  - destruct (step l w) as [w1|] eqn:Hstep; [|done].
    destruct (step_fetched _ _ _ Hstep) as [m1 H1].
    destruct (IH _ Hexec) as [m2 H2].
    exists (m1 ++ m2). by rewrite H2, H1, app_assoc.
Qed.

Lemma pending_frame (w w' : world) c :
  d_samples w' = d_samples w -> d_sample_index w' = d_sample_index w ->
  d_empty_buffer w' = d_empty_buffer w ->
  (rpc w' = RFetched <-> rpc w = RFetched) ->
  pending w' c = pending w c.
Proof.
  intros Hs Hx He Hr. unfold pending. rewrite Hs, Hx, He.
  destruct (rpc w) eqn:H1; destruct (rpc w') eqn:H2; try done;
    try (by destruct Hr as [Hr _]; specialize (Hr eq_refl));
    try (by destruct Hr as [_ Hr]; specialize (Hr eq_refl)).
Qed.

(** A step that leaves the buffer and the streams alone. *)
Lemma data_frame (w w' : world) :
  shape_inv w -> data_inv w ->
  d_samples w' = d_samples w -> d_items_in_buffer w' = d_items_in_buffer w ->
  d_sample_index w' = d_sample_index w -> d_empty_buffer w' = d_empty_buffer w ->
  fetched w' = fetched w -> outs w' = outs w ->
  (rpc w' = RFetched <-> rpc w = RFetched) ->
  shape_inv w' /\ data_inv w'.
Proof.
  intros Hsh Hda Hs Hi Hx He Hf Ho Hr. split.
  - unfold shape_inv. rewrite He, Hs, Hi, Hx. done.
  - unfold data_inv. rewrite Hf, Ho. intros i c strm Hc Hstrm.
    rewrite (pending_frame w w') by done. eauto.
Qed.

Lemma row_of_length_shape (w : world) c :
  shape_inv w -> d_empty_buffer w = false ->
  (length (row_of (d_samples w) c)
   <= Z.to_nat (d_sample_index w + d_items_in_buffer w))%nat.
Proof.
  intros Hsh He. specialize (Hsh He). unfold row_of.
  destruct (d_samples w !! c) as [row|] eqn:Hrow; cbn; [|lia].
  pose proof (proj1 (Forall_forall _ _) Hsh row
                (list_elem_of_lookup_2 _ _ _ Hrow)). cbn beta in *. lia.
Qed.

Lemma data_copy n (w w' : world) :
  base_inv w -> shape_inv w -> data_inv w ->
  d_empty_buffer w = false -> work_copy n w = Ok w' ->
  shape_inv w' /\ data_inv w'.
Proof.
  intros Hbase Hsh Hda He Hcopy.
  pose proof (work_copy_fields _ _ _ Hcopy)
    as (Hs & Hi & Hx & He' & _ & Hr & _ & _ & _ & Hf & _ & Hl).
  pose proof (nb_of_bounds n w (bi_items _ Hbase)) as Hnb.
  pose proof (bi_index _ Hbase He) as Hidx.
  assert (Hnf : rpc w <> RFetched).
  { intros Hr'. rewrite (bi_flight _ Hbase) in He by (by right). done. }
  split.
  - unfold shape_inv. rewrite He', Hs, Hi, Hx. intros _.
    eapply Forall_impl; [exact (Hsh He)|]. intros row Hrow. cbn beta in *. lia.
  - intros i c strm' Hc Hstrm'.
    destruct (work_copy_streams _ _ _ Hcopy) as [Hlen Hstr].
    destruct (lookup_lt_is_Some_2 (outs w) i) as [strm Hstrm].
    { rewrite <- Hlen. by eapply lookup_lt_Some. }
    destruct (Hstr i strm Hstrm) as (c' & data & Hc' & Ho & Hld & Hem).
    assert (c' = c) by congruence. subst c'.
    rewrite Ho in Hstrm'. injection Hstrm' as <-.
    destruct (Hda i c strm Hc Hstrm) as (P & HP & HPe).
    exists (P ++ reads w c (nb_of n w)). split.
    + rewrite Hf, HP. rewrite <- app_assoc. f_equal.
      unfold pending, reads. rewrite Hr, He', Hs, Hx, He.
      replace (Z.to_nat (d_sample_index w + nb_of n w))
        with (Z.to_nat (d_sample_index w) + Z.to_nat (nb_of n w))%nat by lia.
      destruct (rpc w); try done; by rewrite <- drop_drop, take_drop.
    + by apply Forall2_app.
Qed.

Lemma rectangular_rows (blk : list (list sample)) :
  rectangular blk ->
  Forall (fun row => Z.of_nat (length row) = len0 blk) blk.
Proof.
  intros H. eapply Forall_impl; [exact H|]. intros row Hrow.
  unfold len0. cbn beta in *. lia.
Qed.

Lemma data_step l (w w' : world) :
  session_label l -> step l w = Some w' ->
  Forall rectangular (fetched w') ->
  base_inv w -> shape_inv w -> data_inv w ->
  shape_inv w' /\ data_inv w'.
Proof.
  intros Hl Hstep Hrect Hbase Hsh Hda.
  destruct l; cbn [step session_label] in *; try done.
  - destruct (rpc w) eqn:Hr; try done. injection Hstep as <-.
    apply (data_frame w); try done; unfold refill_head;
      destruct (d_thread_stopped w); destruct (d_empty_buffer w) eqn:He;
      rewrite ?Hr; frame_side.
  - destruct (rpc w) eqn:Hr; try done.
    destruct (d_empty_buffer w) eqn:He; [|done]. injection Hstep as <-.
    apply (data_frame w); try done; rewrite ?Hr; frame_side.
  - (* a block is fetched *)
    destruct (rpc w) eqn:Hr; try done. injection Hstep as <-.
    assert (He : d_empty_buffer w = true) by (apply (bi_flight _ Hbase); by left).
    split.
    + unfold shape_inv. cbn. rewrite He. done.
    + intros i c strm Hc Hstrm. cbn in Hstrm.
      destruct (Hda i c strm Hc Hstrm) as (P & HP & HPe).
      exists P. split; [|done]. cbn [fetched fetch_ok].
      rewrite stream_of_snoc, HP. unfold pending. cbn. rewrite Hr, He.
      by rewrite app_nil_r.
  - destruct (rpc w) eqn:Hr; try done. injection Hstep as <-.
    apply (data_frame w); try done; rewrite ?Hr; frame_side.
  - (* the block is installed *)
    destruct (bi_last _ Hbase) as [blocks Hblocks]; [right; by destruct (rpc w)|].
    destruct (rpc w) eqn:Hr; try done. unfold install in Hstep.
    destruct (d_samples w) as [|row0 rest] eqn:Hd; [done|].
    injection Hstep as <-. cbn in Hrect. rewrite Hblocks in Hrect.
    apply Forall_app in Hrect as [_ Hrect]. apply Forall_cons in Hrect as [Hrect _].
    apply rectangular_rows in Hrect.
    split.
    + unfold shape_inv. cbn. intros _.
      eapply Forall_impl; [exact Hrect|]. intros row Hrow. cbn beta in *.
      unfold len0, row_of in Hrow. cbn in Hrow. lia.
    + intros i c strm Hc Hstrm. cbn in Hstrm.
      destruct (Hda i c strm Hc Hstrm) as (P & HP & HPe).
      exists P. split; [|done]. cbn [fetched]. rewrite HP.
      unfold pending. cbn. rewrite Hr, Hd. done.
  - (* work is called *)
    destruct (wpc w); [|done].
    destruct (work_call noutput_items w) as [w1|] eqn:Hcall; [|done].
    injection Hstep as <-.
    destruct (work_call_cases _ _ _ Hcall)
      as [[Hs ->] | [(Hs & Hcase & ->) | (Hs & Hi & He & Hcopy)]].
    + apply (data_frame w); try done; frame_side.
    + split; [unfold shape_inv; cbn; done|].
      intros i c strm Hc Hstrm. cbn in Hstrm.
      destruct (Hda i c strm Hc Hstrm) as (P & HP & HPe).
      exists P. split; [|done]. cbn [fetched set_wpc set_empty_buffer].
      rewrite HP. f_equal. unfold pending. cbn.
      destruct (d_empty_buffer w) eqn:He; [done|].
      assert (Hi : d_items_in_buffer w = 0) by (destruct Hcase; done).
      pose proof (row_of_length_shape w c Hsh He) as Hlen.
      pose proof (bi_index _ Hbase He) as Hidx.
      rewrite Hi in Hlen.
      rewrite (drop_ge (row_of (d_samples w) c)) by lia. done.
    + by eapply data_copy.
  - destruct (wpc w) as [|n]; [done|].
    destruct (wait_for_returns _ _); [|done].
    destruct (work_wake n w) as [w1|] eqn:Hwake; [|done].
    injection Hstep as <-.
    destruct (work_wake_cases _ _ _ Hwake)
      as [[Hs ->] | [(Hs & He & ->) | (Hs & He & Hcopy)]].
    + apply (data_frame w); try done; frame_side.
    + apply (data_frame w); try done; frame_side.
    + by eapply data_copy.
Qed.

Lemma session_exec ls (w w' : world) :
  Forall session_label ls -> exec ls w = Some w' ->
  Forall rectangular (fetched w') ->
  base_inv w -> shape_inv w -> data_inv w ->
  base_inv w' /\ shape_inv w' /\ data_inv w'.
Proof.
  revert w. induction ls as [|l ls IH];
    intros w Hls Hexec Hrect Hbase Hsh Hda; cbn in Hexec.
  - by injection Hexec as <-.
  - apply Forall_cons in Hls as [Hl Hls].
    destruct (step l w) as [w1|] eqn:Hstep; [|done].
    assert (Hrect1 : Forall rectangular (fetched w1)).
    { destruct (exec_fetched _ _ _ Hexec) as [more Hmore].
      rewrite Hmore in Hrect. by apply Forall_app in Hrect as [? _]. }
    destruct (data_step _ _ _ Hl Hstep Hrect1 Hbase Hsh Hda) as [Hsh1 Hda1].
    apply (IH w1); try done. by eapply base_inv_step.
Qed.

Lemma session_start (w0 : world) :
  blank w0 -> base_inv (start w0) /\ shape_inv (start w0) /\ data_inv (start w0).
Proof.
  intros Hblank. split; [by apply base_inv_start_blank|]. split; [done|].
  destruct Hblank as (Hf & Ho & _).
  intros i c strm Hc Hstrm. cbn in Hstrm. exists []. split.
  - cbn [fetched start]. rewrite Hf. done.
  - pose proof (proj1 (Forall_forall _ _) Ho strm
                  (list_elem_of_lookup_2 _ _ _ Hstrm)) as ->. constructor.
Qed.

Lemma emits_mode c x y :
  emits c x y <->
  if d_stream_voltage_values
  then exists v, lexical_cast_float (convertRawToVolts c x) = Some v /\
                 y = OutFloat v
  else exists z, lexical_cast_short x = Some z /\ y = OutShort z.
Proof.
  unfold emits, emit. destruct d_stream_voltage_values.
  - destruct (lexical_cast_float _) as [v|]; cbn; split.
    + intros [= <-]. eauto.
    + intros (v' & [= <-] & ->). done.
    + done.
    + intros (v' & [=] & _).
  - destruct (lexical_cast_short _) as [z|]; cbn; split.
    + intros [= <-]. eauto.
    + intros (z' & [= <-] & ->). done.
    + done.
    + intros (z' & [=] & _).
Qed.

(** On an instance that has fetched and written nothing yet: the items of
    a stream are what [work] emits for the first fetched samples of its
    channel, and for all of them once nothing is left to copy. *)
Lemma prefix_from_blank ls (w0 w : world) i c strm :
  blank w0 -> Forall session_label ls ->
  exec (LStart :: ls) w0 = Some w ->
  Forall rectangular (fetched w) ->
  active_channels !! i = Some c -> outs w !! i = Some strm ->
  Forall2 (emits c) (take (length strm) (stream_of c (fetched w))) strm /\
  (d_items_in_buffer w = 0 -> rpc w <> RFetched ->
     Forall2 (emits c) (stream_of c (fetched w)) strm).
Proof.
  intros Hblank Hls Hexec Hrect Hc Hstrm. cbn [exec step] in Hexec.
  destruct (rpc w0); try done.
  destruct (session_start w0 Hblank) as (Hb0 & Hs0 & Hd0).
  destruct (session_exec _ _ _ Hls Hexec Hrect Hb0 Hs0 Hd0) as (Hb & Hs & Hd).
  destruct (Hd i c strm Hc Hstrm) as (P & HP & HPe).
  pose proof (Forall2_length _ _ _ HPe) as Hlen.
  split.
  - rewrite HP, <- Hlen, take_app_length. done.
  - intros Hi Hr. rewrite HP.
    assert (Hpend : pending w c = []).
    { unfold pending. destruct (d_empty_buffer w) eqn:He.
      - by destruct (rpc w).
      - pose proof (row_of_length_shape w c Hs He) as Hl.
        pose proof (bi_index _ Hb He). rewrite Hi in Hl.
        rewrite drop_ge by lia. by destruct (rpc w). }
    rewrite Hpend, app_nil_r. done.
Qed.

(** *** The tags *)












Lemma tag_start_blank (w0 : world) :
  blank w0 -> req_inv w0 -> req_inv (start w0) /\ tag_inv (start w0).
Proof.
  intros (Hf & Ho & Ht) Hreq. split.
  - exact Hreq.
  - intros i strm Hstrm. cbn in Hstrm.
    cbn [tags fetched start]. rewrite Hf, Ht. done.
Qed.

Lemma tag_start (w0 : world) :
  fresh w0 -> req_inv (start w0) /\ tag_inv (start w0).
Proof.
  intros Hfresh. apply tag_start_blank; [by apply fresh_blank|].
  destruct Hfresh as (_ & _ & _ & Hw). unfold req_inv. by rewrite Hw.
Qed.

(** What a step of [work] does to the tags: nothing, unless it copies. *)
Lemma work_step_tags l (w w' : world) :
  (exists n, l = LWork n) \/ (exists ms, l = LWorkWake ms) ->
  step l w = Some w' ->
  (tags w' = tags w /\ outs w' = outs w) \/
  (d_empty_buffer w = false /\
   exists n, work_copy n w = Ok w' /\
     tags w' = tags w ++ start_tags w (outs w) 0 (length (outs w))).
Proof.
  intros [[n ->] | [ms ->]] Hstep; cbn [step] in Hstep.
  - destruct (wpc w); [|done].
    destruct (work_call n w) as [w1|] eqn:Hcall; [|done].
    injection Hstep as <-.
    destruct (work_call_cases _ _ _ Hcall)
      as [[Hs ->] | [(Hs & Hcase & ->) | (Hs & Hi & He & Hcopy)]];
      [by left | by left | right].
    split; [done|]. exists n. split; [done|].
    by destruct (work_copy_fields _ _ _ Hcopy) as (_&_&_&_&_&_&_&_&_&_&?&_).
  - destruct (wpc w) as [|n]; [done|].
    destruct (wait_for_returns _ _); [|done].
    destruct (work_wake n w) as [w1|] eqn:Hwake; [|done].
    injection Hstep as <-.
    destruct (work_wake_cases _ _ _ Hwake)
      as [[Hs ->] | [(Hs & He & ->) | (Hs & He & Hcopy)]];
      [by left | by left | right].
    split; [done|]. exists n. split; [done|].
    by destruct (work_copy_fields _ _ _ Hcopy) as (_&_&_&_&_&_&_&_&_&_&?&_).
Qed.


(** *** Any session *)

(** The streams, the tags and the list of fetched blocks only grow, and
    nothing [work] or [refill_buffer] does depends on what they hold but
    the offsets of the tags: a run from any instance is the run from the
    instance with that history forgotten, the history put back in front. *)


















(** *** The channel of each stream *)

Lemma copy_samples_no_flag_fault samples c index todo s :
  copy_samples samples c index todo s <> Fault ChannelFlagOutOfRange.
Proof.
  revert s. induction todo as [|todo IH]; intros s; simpl; [done|].
  destruct (samples !! c); [|done].
  destruct (_ !! _); [|done].
  destruct (emit c _); [|done].
  specialize (IH (S s)).
  destruct (copy_samples samples c index todo (S s)); simpl; congruence.
Qed.

Lemma work_streams_flag_fault (w : world) nb todo i k os ts :
  work_streams w nb todo i k os ts = Fault ChannelFlagOutOfRange ->
  stream_channels todo k = Fault ChannelFlagOutOfRange.
Proof.
  revert i k os ts. induction todo as [|todo IH]; intros i k os ts;
    cbn [work_streams stream_channels]; [done|].
  destruct (skip_inactive (drop k d_channels) k) as [c|]; [|done].
  pose proof (copy_samples_no_flag_fault (d_samples w) c
                (Z.to_nat (d_sample_index w)) nb 0) as Hnf.
  destruct (copy_samples _ _ _ _ _) as [data|f]; cbn [rbind]; [|congruence].
  intros Hrec. apply IH in Hrec. rewrite Hrec. done.
Qed.

Lemma work_streams_not_ok (w : world) nb todo i k os ts r :
  work_streams w nb todo i k os ts = Ok r ->
  exists cs, stream_channels todo k = Ok cs.
Proof.
  destruct r as [os' ts']. intros H.
  destruct (work_streams_ok _ _ _ _ _ _ _ _ _ H) as (cs & _ & Hcs & _). eauto.
Qed.

(** C10: the loop that skips the inactive channels has no bound on
    [channel_index].  With at least as many set flags as output streams it
    reads the flags of the first set channels only and [work] never reads
    past the flag vector; with fewer set flags the loop reads past the end
    of the vector, and no run of the stream loop returns. *)
Theorem skip_loop_bounds (w : world) (nb : nat) (os : list (list out_item))
    (ts : list tag_t) :
  ((length os <= length active_channels)%nat ->
     stream_channels (length os) 0 = Ok (take (length os) active_channels) /\
     work_streams w nb (length os) 0 0 os ts <> Fault ChannelFlagOutOfRange) /\
  ((length active_channels < length os)%nat ->
     stream_channels (length os) 0 = Fault ChannelFlagOutOfRange /\
     forall r, work_streams w nb (length os) 0 0 os ts <> Ok r).
Proof.
  pose proof (stream_channels_spec (length os) 0) as Hspec.
  rewrite drop_0 in Hspec. fold active_channels in Hspec.
  split; intros Hlen.
  - rewrite decide_True in Hspec by done. split; [done|].
    intros Hf. apply work_streams_flag_fault in Hf. congruence.
  - rewrite decide_False in Hspec by lia. split; [done|].
    intros r Hr. apply work_streams_not_ok in Hr as [cs Hcs]. congruence.
Qed.

(** C6: a step of [work] either writes nothing to any stream, or it is a
    copy in which the i-th output stream receives the samples of the i-th
    channel whose flag is set, in channel order: the items appended to it
    are what [work] emits for the samples of that channel from the read
    cursor on, as many as the call copies. *)
Theorem streams_follow_active_channels l (w w' : world) :
  (exists n, l = LWork n) \/ (exists ms, l = LWorkWake ms) ->
  step l w = Some w' ->
  outs w' = outs w \/
  exists n,
    work_copy n w = Ok w' /\
    length (outs w') = length (outs w) /\
    forall i strm, outs w !! i = Some strm ->
      exists c data,
        active_channels !! i = Some c /\
        outs w' !! i = Some (strm ++ data) /\
        length data = Z.to_nat (nb_of n w) /\
        Forall2 (emits c) (reads w c (nb_of n w)) data.
Proof.
  intros Hl Hstep.
  destruct (work_step_tags _ _ _ Hl Hstep) as [[_ ?]|(_ & n & Hcopy & _)];
    [by left|right].
  exists n. split; [done|]. by apply work_copy_streams.
Qed.

End Properties.

(** ** The shared context registry *)

Section RegistryProperties.

Context {handle : Type} (getUri : handle -> string).


End RegistryProperties.

(** ** The properties on the concrete instances *)



Lemma skip_loop_bounds_witness :
  (stream_channels (cfg := demo_config [0; 1] false) 1 0 = Ok [1%nat]) /\
  (stream_channels (cfg := demo_config [0; 1] false) 2 0
   = Fault ChannelFlagOutOfRange).
Proof.
  split.
  - apply (proj1 (skip_loop_bounds (cfg := demo_config [0; 1] false)
                    (demo_filled 1 0) 2 [[]] [])).
    vm_compute. lia.
  - apply (proj2 (skip_loop_bounds (cfg := demo_config [0; 1] false)
                    (demo_filled 1 0) 2 [[]; []] [])).
    vm_compute. lia.
Defined.

Lemma streams_follow_active_channels_witness :
  exists w',
    step (cfg := demo_config [0; 1] false) (LWork 3) (demo_filled 1 0) = Some w' /\
    outs w' = [[OutShort 5; OutShort 6; OutShort 7]] /\
    (outs w' = outs (demo_filled 1 0) \/
     exists n,
       work_copy (cfg := demo_config [0; 1] false) n (demo_filled 1 0) = Ok w' /\
       length (outs w') = length (outs (demo_filled 1 0)) /\
       forall i strm, outs (demo_filled 1 0) !! i = Some strm ->
         exists c data,
           active_channels (cfg := demo_config [0; 1] false) !! i = Some c /\
           outs w' !! i = Some (strm ++ data) /\
           length data = Z.to_nat (nb_of n (demo_filled 1 0)) /\
           Forall2 (emits (cfg := demo_config [0; 1] false) c)
             (reads (demo_filled 1 0) c (nb_of n (demo_filled 1 0))) data).
Proof.
  eexists. split; [vm_compute; reflexivity|]. split; [reflexivity|].
  apply (streams_follow_active_channels (cfg := demo_config [0; 1] false)
           (LWork 3) (demo_filled 1 0)).
  - left. by exists 3.
  - vm_compute. reflexivity.
Defined.

Lemma demo_two_blocks_exec :
  exec (cfg := demo_raw) (LStart :: demo_two_blocks) demo_new
  = Some demo_two_blocks_end.
Proof. vm_compute. reflexivity. Qed.

Lemma demo_new_fresh : fresh demo_new.
Proof. repeat split; repeat constructor. Qed.






(** C2, as the claim states it, fails: after half of a block of 2048
    samples was read, [stop] and [start] leave the read cursor at 1024 with
    a remaining count of zero, next to the block of 2048 items. *)
Lemma restart_keeps_the_cursor :
  exec (cfg := demo_raw) demo_restart demo_new = Some demo_restart_end /\
  d_sample_index demo_restart_end = 1024 /\
  d_items_in_buffer demo_restart_end = 0 /\
  len0 (d_samples demo_restart_end) = 2048 /\
  ~ buffer_equation demo_restart_end /\
  ~ (d_sample_index demo_restart_end = 0 /\
     d_items_in_buffer demo_restart_end = 0).
Proof.
  split; [vm_compute; reflexivity|].
  split; [reflexivity|]. split; [reflexivity|].
  split; [vm_compute; reflexivity|].
  split.
  - unfold buffer_equation. vm_compute. discriminate.
  - intros [H _]. discriminate H.
Qed.

Lemma demo_filled_well_formed : well_formed (cfg := demo_raw) (demo_filled 2 0).
Proof.
  unfold well_formed. split; [cbn; lia|]. split; [cbn; lia|].
  change (take (length (outs (demo_filled 2 0))) (active_channels (cfg := demo_raw)))
    with [0%nat; 1%nat].
  change (length (active_channels (cfg := demo_raw))) with 2%nat.
  split; [cbn; lia|].
  change (row_of (d_samples (demo_filled 2 0))) with (row_of demo_block1).
  apply Forall_cons; split; [|apply Forall_cons; split; [|constructor]].
  - split; [reflexivity|].
    change (row_of demo_block1 0) with [1; 2; 3; 4].
    repeat (apply Forall_cons; split; [eexists; vm_compute; reflexivity|]).
    constructor.
  - split; [reflexivity|].
    change (row_of demo_block1 1) with [5; 6; 7; 8].
    repeat (apply Forall_cons; split; [eexists; vm_compute; reflexivity|]).
    constructor.
Qed.

Lemma demo_filled_waiting_well_formed :
  well_formed (cfg := demo_raw) (set_wpc (WWaiting 2) (demo_filled 2 0)).
Proof. exact demo_filled_well_formed. Qed.

Lemma work_partial_read_witness :
  (exists w',
     step (cfg := demo_raw) (LWork 2) (demo_filled 2 0) = Some w' /\
     rets w' = [2] /\
     d_items_in_buffer w' = 2 /\
     d_sample_index w' = 2 /\
     outs w' !! 1%nat = Some [OutShort 5; OutShort 6]) /\
  (exists w',
     step (cfg := demo_raw) (LWorkWake 30)
       (set_wpc (WWaiting 2) (demo_filled 2 0)) = Some w' /\
     rets w' = [2] /\
     d_items_in_buffer w' = 2 /\
     d_sample_index w' = 2 /\
     outs w' !! 1%nat = Some [OutShort 5; OutShort 6]).
Proof.
  assert (H2 : int_range 2) by (unfold int_range; lia).
  split.
  - destruct (work_partial_read (cfg := demo_raw) 2 (LWork 2) (demo_filled 2 0))
      as (w' & Hstep & _ & Hret & Hitems & Hindex & _).
    + left. split; reflexivity.
    + reflexivity.
    + reflexivity.
    + exact demo_filled_well_formed.
    + cbn. lia.
    + exact H2.
    + exists w'. split; [exact Hstep|]. split; [exact Hret|].
      split; [exact Hitems|]. split; [exact Hindex|].
      vm_compute in Hstep. injection Hstep as <-. reflexivity.
  - destruct (work_partial_read (cfg := demo_raw) 2 (LWorkWake 30)
                (set_wpc (WWaiting 2) (demo_filled 2 0)))
      as (w' & Hstep & _ & Hret & Hitems & Hindex & _).
    + right. exists 30. split; [reflexivity|]. split; [reflexivity|].
      unfold wait_for_ms. lia.
    + reflexivity.
    + reflexivity.
    + exact demo_filled_waiting_well_formed.
    + cbn. lia.
    + exact H2.
    + exists w'. split; [exact Hstep|]. split; [exact Hret|].
      split; [exact Hitems|]. split; [exact Hindex|].
      vm_compute in Hstep. injection Hstep as <-. reflexivity.
Defined.

Lemma fetch_failure_ends_stream_witness :
  exists w1,
    step (cfg := demo_raw) LFetchFail demo_fetching = Some w1 /\
    d_thread_stopped w1 = true /\
    exists w3,
      step (cfg := demo_raw) (LWork 1024) w1 = Some w3 /\
      rets w3 = [-1] /\ outs w3 = [[]; []].
Proof.
  destruct (fetch_failure_ends_stream (cfg := demo_raw) demo_fetching eq_refl)
    as (w1 & Hstep & Hstop & _ & _ & _ & Hafter).
  exists w1. split; [exact Hstep|]. split; [exact Hstop|].
  destruct (Hafter [] w1 (List.Forall_nil _) eq_refl)
    as (_ & _ & _ & Houts & _ & Hcall & _).
  assert (Hw : wpc w1 = WIdle).
  { cbn in Hstep. injection Hstep as <-. reflexivity. }
  assert (Hr : rets w1 = []).
  { cbn in Hstep. injection Hstep as <-. reflexivity. }
  destruct (Hcall 1024 Hw) as (w3 & Hstep3 & Hret & Houts3 & _).
  exists w3. split; [exact Hstep3|]. rewrite Hret, Houts3, Hr, Houts.
  split; reflexivity.
Defined.



(** C7, as the claim states it, fails: the fetch of the refill thread does
    not return, [work] is called, and after two timeouts of 100 ms the call
    is still waiting: it has published two messages and returned nothing. *)
Lemma hung_fetch_keeps_work_waiting :
  exec (cfg := demo_raw) demo_hung_fetch demo_new = Some demo_hung_fetch_end /\
  rpc demo_hung_fetch_end = RFetching /\
  waited_ms demo_hung_fetch = 2 * wait_for_ms /\
  wpc demo_hung_fetch_end = WWaiting 1024 /\
  rets demo_hung_fetch_end = [] /\
  msgs demo_hung_fetch_end = ["timeout"%string; "timeout"%string].
Proof.
  split; [vm_compute; reflexivity|].
  repeat split; reflexivity.
Qed.

Lemma bounded_wait_loop_witness :
  exists w',
    exec (cfg := demo_raw) (replicate 3 (LWorkWake wait_for_ms))
      (set_wpc (WWaiting 1024) demo_fetching) = Some w' /\
    wpc w' = WWaiting 1024 /\
    msgs w' = replicate 3 "timeout"%string.
Proof.
  destruct (bounded_wait_loop (cfg := demo_raw) 1024
              (set_wpc (WWaiting 1024) demo_fetching))
    as (_ & _ & Hwait).
  destruct (Hwait eq_refl) as (_ & _ & Htimeout & _).
  destruct (Htimeout eq_refl eq_refl) as [_ Hk].
  destruct (Hk 3%nat) as (w' & Hexec & _ & Hw & Hm & _).
  exists w'. split; [exact Hexec|]. split; [exact Hw | exact Hm].
Defined.

(** ** Further properties of the block *)

Section MoreProperties.

Context {sample volt : Type} {cfg : Config sample volt}.

Local Abbreviation out_item := (out_item volt).
Local Abbreviation world := (world sample volt).
Local Abbreviation label := (label sample).
Local Abbreviation command := (command sample).

(** *** [set_params] and [set_trigger] *)

Lemma params_loop_spec flags k (ranges : list Z) :
  params_loop (sample := sample) flags k ranges =
    if decide (Forall (fun c => (c < length ranges)%nat) (active_from flags k))
    then inr (active_from flags k ≫= channel_params ranges)
    else inl RangesOutOfRange.
Proof.
  revert k. induction flags as [|f rest IH]; intros k;
    cbn [params_loop active_from].
  - destruct (decide _) as [_|H]; [done|]. exfalso. apply H. constructor.
  - destruct (decide (f = 0)); [apply IH|].
    destruct (ranges !! k) as [r|] eqn:Hr.
    + rewrite IH. pose proof (lookup_lt_Some _ _ _ Hr) as Hlt.
      destruct (decide (Forall _ (active_from rest (S k)))) as [Hall|Hall];
        destruct (decide (Forall _ (k :: active_from rest (S k)))) as [Hall'|Hall'].
      * cbn. unfold channel_params at 2. rewrite Hr. done.
      * exfalso. apply Hall'. by constructor.
      * exfalso. apply Hall. by apply Forall_cons in Hall' as [_ ?].
      * done.
    + apply lookup_ge_None in Hr.
      destruct (decide _) as [Hall|_]; [|done].
      apply Forall_cons in Hall as [Hlt _]. lia.
Qed.

(** X1: [set_params] stays within [ranges] exactly when every active
    channel has an entry there (entries of inactive channels are never
    read, so a shorter vector does when the inactive channels come last);
    it then enables each active channel and sets its range, in channel
    order and nothing else per channel, no inactive channel is touched and
    no channel is disabled, and the sample rate and the oversampling ratio
    are set last. *)
Theorem set_params_spec (ranges : list Z) (f : sample) (n : Z) :
  set_params ranges f n =
    if decide (Forall (fun c => (c < length ranges)%nat) active_channels)
    then inr ((active_channels ≫= channel_params ranges)
              ++ [SetSampleRate f; SetOversamplingRatio n])
    else inl RangesOutOfRange.
Proof.
  unfold set_params, active_channels. rewrite params_loop_spec.
  destruct (decide _); done.
Qed.

Lemma trigger_loop_ok flags k (cd md : list Z) (lv : list sample) :
  Forall (fun c => (c < length cd)%nat /\ (c < length md)%nat /\
                   (c < length lv)%nat) (active_from flags k) ->
  trigger_loop flags k cd md lv
  = inr (active_from flags k ≫= channel_trigger cd md lv).
Proof.
  revert k. induction flags as [|f rest IH]; intros k Hall;
    cbn [trigger_loop active_from] in *; [done|].
  destruct (decide (f = 0)); [by apply IH|].
  apply Forall_cons in Hall as [(H1 & H2 & H3) Hall].
  destruct (lookup_lt_is_Some_2 cd k H1) as [c Hc].
  destruct (lookup_lt_is_Some_2 md k H2) as [m Hm].
  destruct (lookup_lt_is_Some_2 lv k H3) as [l Hl].
  rewrite Hc, Hm, Hl, (IH _ Hall). cbn.
  unfold channel_trigger at 2. rewrite Hc, Hm, Hl. done.
Qed.

Lemma trigger_loop_fault flags k (cd md : list Z) (lv : list sample) :
  ~ Forall (fun c => (c < length cd)%nat /\ (c < length md)%nat /\
                     (c < length lv)%nat) (active_from flags k) ->
  exists e, trigger_loop flags k cd md lv = inl e /\ e <> RangesOutOfRange.
Proof.
  revert k. induction flags as [|f rest IH]; intros k Hall;
    cbn [trigger_loop active_from] in *.
  - exfalso. apply Hall. constructor.
  - destruct (decide (f = 0)); [by apply IH|].
    destruct (cd !! k) as [c|] eqn:Hc; [|by eexists].
    destruct (md !! k) as [m|] eqn:Hm; [|by eexists].
    destruct (lv !! k) as [l|] eqn:Hl; [|by eexists].
    assert (Hrest : ~ Forall (fun c => (c < length cd)%nat /\
                       (c < length md)%nat /\ (c < length lv)%nat)
                     (active_from rest (S k))).
    { intros Hrest. apply Hall. constructor; [|done].
      repeat split; by eapply lookup_lt_Some. }
    destruct (IH (S k) Hrest) as (e & -> & He). by eexists.
Qed.

(** X2: [set_trigger] stays within its three vectors exactly when each of
    them has an entry for every active channel; it then sets condition,
    mode and level of each active channel, in channel order, touches no
    inactive channel, and sets the source and the delay last. *)
Theorem set_trigger_spec (cd md : list Z) (src delay : Z) (lv : list sample) :
  (Forall (fun c => (c < length cd)%nat /\ (c < length md)%nat /\
                    (c < length lv)%nat) active_channels ->
   set_trigger cd md src delay lv
   = inr ((active_channels ≫= channel_trigger cd md lv)
          ++ [SetAnalogSource src; SetAnalogDelay delay])) /\
  (~ Forall (fun c => (c < length cd)%nat /\ (c < length md)%nat /\
                      (c < length lv)%nat) active_channels ->
   exists e, set_trigger cd md src delay lv = inl e).
Proof.
  unfold set_trigger, active_channels. split; intros H.
  - by rewrite trigger_loop_ok.
  - destruct (trigger_loop_fault _ _ _ _ _ H) as (e & -> & _). eauto.
Qed.

(** *** What a step can change *)

(** Every step leaves the streams and the tags alone, unless it is a copy
    of [work]: made with the empty flag and the stopped flag clear, by the
    call itself or by its wait returning. *)
Lemma step_effect l (w w' : world) :
  step l w = Some w' ->
  (outs w' = outs w /\ tags w' = tags w /\
   (rets w' = rets w \/ rets w' = rets w ++ [-1])) \/
  (d_empty_buffer w = false /\ d_thread_stopped w = false /\
   exists n, work_copy n w = Ok w' /\
     (l = LWork n \/ (exists ms, l = LWorkWake ms) /\ wpc w = WWaiting n)).
Proof.
  intros Hstep. destruct l; cbn [step] in Hstep.
  - destruct (rpc w); try done. injection Hstep as <-. left. cbn. tauto.
  - injection Hstep as <-. left. cbn. tauto.
  - destruct (rpc w); try done. injection Hstep as <-. left. cbn. tauto.
  - destruct (rpc w); try done. injection Hstep as <-. left.
    unfold refill_head.
    destruct (d_thread_stopped w); [|destruct (d_empty_buffer w)]; cbn; tauto.
  - destruct (rpc w); try done. destruct (d_empty_buffer w); [|done].
    injection Hstep as <-. left. cbn. tauto.
  - destruct (rpc w); try done. injection Hstep as <-. left. cbn. tauto.
  - destruct (rpc w); try done. injection Hstep as <-. left. cbn. tauto.
  - destruct (rpc w); try done. unfold install in Hstep.
    destruct (d_samples w); [done|]. injection Hstep as <-. left. cbn. tauto.
  - destruct (wpc w); [|done].
    destruct (work_call noutput_items w) as [w1|] eqn:Hcall; [|done].
    injection Hstep as <-.
    destruct (work_call_cases _ _ _ Hcall)
      as [[Hs ->] | [(Hs & Hcase & ->) | (Hs & Hi & He & Hcopy)]].
    + left. cbn. tauto.
    + left. cbn. tauto.
    + right. split; [done|]. split; [done|]. exists noutput_items. tauto.
  - destruct (wpc w) as [|n] eqn:Hw; [done|].
    destruct (wait_for_returns _ _); [|done].
    destruct (work_wake n w) as [w1|] eqn:Hwake; [|done].
    injection Hstep as <-.
    destruct (work_wake_cases _ _ _ Hwake)
      as [[Hs ->] | [(Hs & He & ->) | (Hs & He & Hcopy)]].
    + left. cbn. tauto.
    + left. cbn. tauto.
    + right. split; [done|]. split; [done|]. exists n. split; [done|].
      right. split; [eauto|done].
Qed.

(** No step but a fetch changes [d_samples]. *)
Lemma step_samples l (w w' : world) :
  step l w = Some w' ->
  d_samples w' = d_samples w \/ exists blk, l = LFetchOk blk.
Proof.
  intros Hstep.
  destruct (step_effect _ _ _ Hstep) as [_|(_ & _ & n & Hcopy & _)].
  - destruct l; cbn [step] in Hstep; try (right; by eexists); left.
    + destruct (rpc w); try done. by injection Hstep as <-.
    + by injection Hstep as <-.
    + destruct (rpc w); try done. by injection Hstep as <-.
    + destruct (rpc w); try done. injection Hstep as <-. unfold refill_head.
      destruct (d_thread_stopped w); [|destruct (d_empty_buffer w)]; done.
    + destruct (rpc w); try done. destruct (d_empty_buffer w); [|done].
      by injection Hstep as <-.
    + destruct (rpc w); try done. by injection Hstep as <-.
    + destruct (rpc w); try done. unfold install in Hstep.
      destruct (d_samples w) eqn:Hd; [done|]. by injection Hstep as <-.
    + destruct (wpc w); [|done].
      destruct (work_call noutput_items w) as [w1|] eqn:Hcall; [|done].
      injection Hstep as <-.
      destruct (work_call_cases _ _ _ Hcall)
        as [[Hs ->] | [(Hs & Hcase & ->) | (Hs & Hi & He & Hcopy)]];
        [done | done |].
      by destruct (work_copy_fields _ _ _ Hcopy) as [? _].
    + destruct (wpc w) as [|n] eqn:Hw; [done|].
      destruct (wait_for_returns _ _); [|done].
      destruct (work_wake n w) as [w1|] eqn:Hwake; [|done].
      injection Hstep as <-.
      destruct (work_wake_cases _ _ _ Hwake)
        as [[Hs ->] | [(Hs & He & ->) | (Hs & He & Hcopy)]];
        [done | done |].
      by destruct (work_copy_fields _ _ _ Hcopy) as [? _].
  - left. by destruct (work_copy_fields _ _ _ Hcopy) as [? _].
Qed.

(** X3: [work] never reads [d_samples] while the refill thread is between
    releasing the lock for [getSamplesRaw] and taking it again: whatever
    [start], [stop] and the two threads did before, a step of [work] taken
    then writes no item and no tag, and the only step that changes
    [d_samples] is the assignment of the fetched block. *)
Theorem no_copy_during_fetch ls (w0 w : world) l w' :
  exec (LStart :: ls) w0 = Some w ->
  rpc w = RFetching \/ rpc w = RFetched ->
  step l w = Some w' ->
  (outs w' = outs w /\ tags w' = tags w) /\
  (d_samples w' = d_samples w \/ exists blk, l = LFetchOk blk).
Proof.
  intros Hexec Hflight Hstep. cbn [exec step] in Hexec.
  destruct (rpc w0); try done.
  assert (Hinit : filled_inv (start w0)).
  { split; cbn; [done|]. intros [?|?]; done. }
  destruct (filled_inv_exec _ _ _ Hexec Hinit) as [_ Hfl].
  split; [|by apply step_samples].
  destruct (step_effect _ _ _ Hstep) as [(? & ? & _)|(He & _)]; [done|].
  rewrite (Hfl Hflight) in He. done.
Qed.

Lemma idle_until_install_step l (w w' : world) :
  l <> LInstall -> step l w = Some w' -> d_empty_buffer w = true ->
  d_empty_buffer w' = true /\ outs w' = outs w /\ tags w' = tags w.
Proof.
  intros Hl Hstep He.
  destruct (step_effect _ _ _ Hstep) as [(Ho & Ht & _)|(He' & _)];
    [|congruence].
  split; [|done]. clear Ho Ht.
  destruct l; cbn [step] in Hstep; try done.
  - destruct (rpc w); try done. by injection Hstep as <-.
  - by injection Hstep as <-.
  - destruct (rpc w); try done. by injection Hstep as <-.
  - destruct (rpc w); try done. injection Hstep as <-. unfold refill_head.
    rewrite He. by destruct (d_thread_stopped w).
  - destruct (rpc w); try done. rewrite He in Hstep. by injection Hstep as <-.
  - destruct (rpc w); try done. by injection Hstep as <-.
  - destruct (rpc w); try done. by injection Hstep as <-.
  - destruct (wpc w); [|done].
    destruct (work_call noutput_items w) as [w1|] eqn:Hcall; [|done].
    injection Hstep as <-.
    destruct (work_call_cases _ _ _ Hcall)
      as [[Hs ->] | [(Hs & Hcase & ->) | (Hs & Hi & He' & Hcopy)]];
      [done | done | congruence].
  - destruct (wpc w) as [|n] eqn:Hw; [done|].
    destruct (wait_for_returns _ _); [|done].
    destruct (work_wake n w) as [w1|] eqn:Hwake; [|done].
    injection Hstep as <-.
    destruct (work_wake_cases _ _ _ Hwake)
      as [[Hs ->] | [(Hs & He' & ->) | (Hs & He' & Hcopy)]];
      [done | done | congruence].
Qed.

(** X4: [start] never hands out what an earlier run left in the buffer:
    from [start] on and until the refill thread installs a block, whatever
    else happens ([work] called, [stop], [start] again), the empty flag
    stays set and no item and no tag is written. *)
Theorem nothing_written_before_install ls (w0 w : world) :
  Forall (fun l => l <> LInstall) ls ->
  exec (LStart :: ls) w0 = Some w ->
  d_empty_buffer w = true /\ outs w = outs w0 /\ tags w = tags w0.
Proof.
  intros Hls Hexec. cbn [exec step] in Hexec.
  destruct (rpc w0); try done.
  assert (Hgen : forall ls (w1 w2 : world),
    Forall (fun l => l <> LInstall) ls -> exec ls w1 = Some w2 ->
    d_empty_buffer w1 = true ->
    d_empty_buffer w2 = true /\ outs w2 = outs w1 /\ tags w2 = tags w1).
  { clear. induction ls as [|l ls IH]; intros w1 w2 Hls Hexec He;
      cbn in Hexec.
    - by injection Hexec as <-.
    - apply Forall_cons in Hls as [Hl Hls].
      destruct (step l w1) as [w3|] eqn:Hstep; [|done].
      destruct (idle_until_install_step _ _ _ Hl Hstep He) as (He3 & Ho & Ht).
      destruct (IH _ _ Hls Hexec He3) as (? & ? & ?).
      repeat split; congruence. }
  apply (Hgen ls (start w0) w Hls Hexec). done.
Qed.

(** *** After [stop] *)

Lemma after_stop_step l (w w' : world) :
  no_restart l -> step l w = Some w' ->
  d_thread_stopped w = true -> (rpc w = RWaiting -> d_empty_buffer w = true) ->
  (d_thread_stopped w' = true /\
   (rpc w' = RWaiting -> d_empty_buffer w' = true)) /\
  outs w' = outs w /\
  ((if refill_label l then 1 else 0) + refill_steps_left (rpc w')
   <= refill_steps_left (rpc w))%nat /\
  (length (fetched w') + fetches_left (rpc w')
   <= length (fetched w) + fetches_left (rpc w))%nat.
Proof.
  intros Hl Hstep Hs Hwait.
  destruct l; cbn [step no_restart refill_label] in *; try done.
  - injection Hstep as <-. cbn. repeat split; try done; lia.
  - destruct (rpc w) eqn:Hr; try done. injection Hstep as <-. cbn.
    repeat split; try done; lia.
  - destruct (rpc w) eqn:Hr; try done. injection Hstep as <-.
    unfold refill_head. rewrite Hs. cbn. repeat split; try done; lia.
  - destruct (rpc w) eqn:Hr; try done.
    destruct (d_empty_buffer w) eqn:He; [|done]. injection Hstep as <-. cbn.
    repeat split; try done; lia.
  - destruct (rpc w) eqn:Hr; try done. injection Hstep as <-. cbn.
    rewrite length_app. cbn. repeat split; try done; lia.
  - destruct (rpc w) eqn:Hr; try done. injection Hstep as <-. cbn.
    repeat split; try done; lia.
  - destruct (rpc w) eqn:Hr; try done. unfold install in Hstep.
    destruct (d_samples w); [done|]. injection Hstep as <-. cbn.
    repeat split; try done; lia.
  - destruct (wpc w); [|done]. unfold work_call in Hstep. rewrite Hs in Hstep.
    injection Hstep as <-. cbn. repeat split; try done; lia.
  - destruct (wpc w); [done|]. destruct (wait_for_returns _ _); [|done].
    unfold work_wake in Hstep. rewrite Hs in Hstep.
    injection Hstep as <-. cbn. repeat split; try done; lia.
Qed.

Lemma after_stop_exec ls (w w' : world) :
  Forall no_restart ls -> exec ls w = Some w' ->
  d_thread_stopped w = true -> (rpc w = RWaiting -> d_empty_buffer w = true) ->
  (d_thread_stopped w' = true /\
   (rpc w' = RWaiting -> d_empty_buffer w' = true)) /\
  outs w' = outs w /\
  (count_refill ls + refill_steps_left (rpc w')
   <= refill_steps_left (rpc w))%nat /\
  (length (fetched w') + fetches_left (rpc w')
   <= length (fetched w) + fetches_left (rpc w))%nat.
Proof.
  revert w. induction ls as [|l ls IH]; intros w Hls Hexec Hs Hwait;
    cbn [exec count_refill] in *.
  - injection Hexec as <-. repeat split; try done; lia.
  - apply Forall_cons in Hls as [Hl Hls].
    destruct (step l w) as [w1|] eqn:Hstep; [|done].
    destruct (after_stop_step _ _ _ Hl Hstep Hs Hwait)
      as ([Hs1 Hwait1] & Ho1 & Hn1 & Hf1).
    destruct (IH _ Hls Hexec Hs1 Hwait1) as (Hinv & Ho & Hn & Hf).
    split; [done|]. split; [congruence|]. split; lia.
Qed.

(** X5: once [stop] has set the flags, the refill thread is on its way
    out, wherever it stood: whatever the two threads do (no [start]), it
    takes at most four more steps and fetches at most one more block (a
    thread waiting for an empty buffer is woken by the flag [stop] sets and
    calls [getSamplesRaw] once more without looking at the stopped flag),
    no item is written any more, and as long as it has not left its loop
    it has a step to take, provided the device answers and a fetched block
    has a first row; then [join] returns. *)
Theorem refill_ends_after_stop ls (w w' : world) :
  Forall no_restart ls -> exec ls (stop_signal w) = Some w' ->
  d_thread_stopped w' = true /\
  outs w' = outs w /\
  (count_refill ls <= refill_steps_left (rpc w))%nat /\
  (refill_steps_left (rpc w) <= 4)%nat /\
  (length (fetched w') <= length (fetched w) + fetches_left (rpc w))%nat /\
  (fetches_left (rpc w) <= 1)%nat /\
  ((rpc w' = RNone \/
    (rpc w' = RDone /\ step LStopJoin w' = Some (set_rpc RNone w'))) \/
   (rpc w' = RFetched /\ d_samples w' = []) \/
   exists l w'', refill_label l = true /\ step l w' = Some w'').
Proof.
  intros Hls Hexec.
  destruct (after_stop_exec _ _ _ Hls Hexec) as ([Hs Hwait] & Ho & Hn & Hf);
    [done | done |]. cbn in Ho, Hn, Hf.
  split; [done|]. split; [done|]. split; [lia|].
  split; [destruct (rpc w); cbn; lia|]. split; [lia|].
  split; [destruct (rpc w); cbn; lia|].
  destruct (rpc w') eqn:Hr.
  - left. by left.
  - right. right. exists LRefillHead. eexists. split; [done|].
    cbn [step]. by rewrite Hr.
  - right. right. exists LRefillWake. eexists. split; [done|].
    cbn [step]. by rewrite Hr, (Hwait eq_refl).
  - right. right. exists LFetchFail. eexists. split; [done|].
    cbn [step]. by rewrite Hr.
  - destruct (d_samples w') as [|row0 rest] eqn:Hd.
    + right. left. done.
    + right. right. exists LInstall. eexists. split; [done|].
      cbn [step]. rewrite Hr. unfold install. rewrite Hd. done.
  - left. right. split; [done|]. cbn [step]. by rewrite Hr.
Qed.

(** *** Between [start] and [stop], once more *)

(** X6: between [start] and [stop] the refill thread replaces [d_samples]
    only when nothing is left to read: when the fetched block is assigned,
    the remaining count is zero and every stream holds as many items as all
    the blocks fetched before; and when these blocks are rectangular, each
    stream holds what [work] emits for every sample of its channel in
    them, so that no fetched sample is overwritten before [work] has
    copied it.  (Of a block with rows longer than the first, the samples
    past the length of the first row are never copied.) *)
Theorem fetch_only_when_drained ls (w0 w : world) blk w' :
  fresh w0 -> Forall session_label ls ->
  exec (LStart :: ls) w0 = Some w ->
  step (LFetchOk blk) w = Some w' ->
  d_items_in_buffer w = 0 /\
  Forall (fun strm => Z.of_nat (length strm) = total0 (fetched w)) (outs w) /\
  (Forall rectangular (fetched w) ->
   forall i c strm,
     active_channels !! i = Some c -> outs w !! i = Some strm ->
     Forall2 (emits c) (stream_of c (fetched w)) strm).
Proof.
  intros Hfresh Hls Hexec Hstep.
  pose proof Hexec as Hexec0. cbn [exec step] in Hexec.
  destruct (rpc w0); try done.
  pose proof (base_inv_exec _ _ _ Hls Hexec (base_inv_start _ Hfresh))
    as [Hfl Hem _ _ _ _ Hle].
  cbn [step] in Hstep. destruct (rpc w) eqn:Hr; try done.
  assert (Hi : d_items_in_buffer w = 0) by (apply Hem, Hfl; by left).
  split; [done|]. split.
  - unfold written in Hle. rewrite Hr, Hi in Hle.
    eapply Forall_impl; [exact Hle|]. intros strm Hs. cbn beta in *. lia.
  - intros Hrect i c strm Hc Hstrm.
    apply (prefix_from_blank ls w0 w i c strm (fresh_blank _ Hfresh) Hls
             Hexec0 Hrect Hc Hstrm); [done|]. by rewrite Hr.
Qed.

(** X7: a call of [work] for a non-negative count either waits, or returns
    -1 and writes nothing, or returns the smaller of the remaining and the
    requested count: never more than was asked for, never more than the
    buffer holds, and exactly as many items as it returns are added to
    every stream and taken off the remaining count. *)
Theorem work_return_bounds (n : Z) (w w' : world) :
  0 <= n -> int_range n -> 0 <= d_items_in_buffer w ->
  step (LWork n) w = Some w' ->
  (wpc w' = WWaiting n /\ rets w' = rets w /\ outs w' = outs w) \/
  (wpc w' = WIdle /\ rets w' = rets w ++ [-1] /\ outs w' = outs w) \/
  (wpc w' = WIdle /\
   exists r, rets w' = rets w ++ [r] /\
     r = Z.min (d_items_in_buffer w) n /\ 0 <= r <= n /\
     d_items_in_buffer w' = d_items_in_buffer w - r /\
     Forall2 (fun strm strm' => length strm' = (length strm + Z.to_nat r)%nat)
       (outs w) (outs w')).
Proof.
  intros Hn Hint Hitems Hstep. cbn [step] in Hstep.
  destruct (wpc w); [|done].
  destruct (work_call n w) as [w1|] eqn:Hcall; [|done].
  injection Hstep as <-.
  destruct (work_call_cases _ _ _ Hcall)
    as [[Hs ->] | [(Hs & Hcase & ->) | (Hs & Hi & He & Hcopy)]].
  - right. left. done.
  - left. done.
  - right. right.
    pose proof (work_copy_fields _ _ _ Hcopy)
      as (_ & Hi' & _ & _ & _ & _ & Hw & _ & Hret & _).
    pose proof (work_copy_lengths _ _ _ Hcopy) as Hlens.
    rewrite (nb_of_small n w Hn Hint) in *.
    split; [done|]. exists (Z.min (d_items_in_buffer w) n).
    rewrite to_int_small in Hret by (unfold int_range in *; lia).
    split; [done|]. split; [done|]. split; [lia|]. done.
Qed.

Lemma produced_snoc returned r :
  produced (returned ++ [r]) = produced returned + Z.max r 0.
Proof.
  unfold produced. induction returned as [|x xs IH]; cbn; lia.
Qed.

Lemma account_frame (w w' : world) extra :
  wpc w' = wpc w -> rets w' = rets w -> outs w' = outs w -> 0 <= extra ->
  req_inv w ->
  Forall (fun strm => Z.of_nat (length strm) = produced (rets w)) (outs w) ->
  req_inv w' /\
  Forall (fun strm => Z.of_nat (length strm) = produced (rets w')) (outs w') /\
  produced (rets w') + waiting_for w'
  <= produced (rets w) + waiting_for w + extra.
Proof.
  intros Hw Hr Ho Hextra Hreq Hacc. unfold req_inv, waiting_for in *.
  rewrite Hw, Hr, Ho. split; [done|]. split; [done|]. lia.
Qed.

Lemma account_step l (w w' : world) :
  positive_request l -> step l w = Some w' ->
  0 <= d_items_in_buffer w -> req_inv w ->
  Forall (fun strm => Z.of_nat (length strm) = produced (rets w)) (outs w) ->
  req_inv w' /\
  Forall (fun strm => Z.of_nat (length strm) = produced (rets w')) (outs w') /\
  produced (rets w') + waiting_for w'
  <= produced (rets w) + waiting_for w
     + match l with LWork n => n | _ => 0 end.
Proof.
  intros Hpos Hstep Hitems Hreq Hacc.
  assert (Hcopy_case : forall n, 0 < n -> int_range n ->
    work_copy n w = Ok w' ->
    req_inv w' /\
    Forall (fun strm => Z.of_nat (length strm) = produced (rets w')) (outs w') /\
    produced (rets w') + waiting_for w' <= produced (rets w) + n).
  { intros n Hn Hint Hcopy.
    pose proof (work_copy_fields _ _ _ Hcopy)
      as (_ & _ & _ & _ & _ & _ & Hw & _ & Hret & _).
    pose proof (work_copy_lengths _ _ _ Hcopy) as Hlens.
    rewrite (nb_of_small n w) in * by (done || lia).
    rewrite to_int_small in Hret by (unfold int_range in *; lia).
    unfold req_inv, waiting_for. rewrite Hw, Hret, produced_snoc.
    split; [done|]. split; [|lia].
    apply Forall_forall. intros strm' Hin.
    apply list_elem_of_lookup in Hin as [i Hin].
    destruct (Forall2_lookup_r _ _ _ _ _ Hlens Hin) as (strm & Hstrm & Hlen).
    pose proof (proj1 (Forall_forall _ _) Hacc strm
                  (list_elem_of_lookup_2 _ _ _ Hstrm)) as Hold.
    cbn beta in *. lia. }
  assert (Heos : forall n, 0 <= n -> waiting_for w <= n ->
    req_inv (work_eos w) /\
    Forall (fun strm => Z.of_nat (length strm) = produced (rets (work_eos w)))
      (outs (work_eos w)) /\
    produced (rets (work_eos w)) + waiting_for (work_eos w)
    <= produced (rets w) + n).
  { intros n Hn Hwait. unfold req_inv, waiting_for in *. cbn -[produced].
    rewrite produced_snoc. split; [done|].
    split; [by rewrite Z.add_0_r|]. lia. }
  destruct l; cbn [step positive_request] in *.
  - destruct (rpc w); try done. injection Hstep as <-.
    by apply (account_frame w).
  - injection Hstep as <-. by apply (account_frame w).
  - destruct (rpc w); try done. injection Hstep as <-.
    by apply (account_frame w).
  - destruct (rpc w); try done. injection Hstep as <-.
    apply (account_frame w); try done; unfold refill_head;
      destruct (d_thread_stopped w); destruct (d_empty_buffer w); done.
  - destruct (rpc w); try done. destruct (d_empty_buffer w); [|done].
    injection Hstep as <-. by apply (account_frame w).
  - destruct (rpc w); try done. injection Hstep as <-.
    by apply (account_frame w).
  - destruct (rpc w); try done. injection Hstep as <-.
    by apply (account_frame w).
  - destruct (rpc w); try done. unfold install in Hstep.
    destruct (d_samples w); [done|]. injection Hstep as <-.
    by apply (account_frame w).
  - destruct Hpos as [Hn Hint].
    destruct (wpc w) eqn:Hw; [|done].
    assert (Hwait : waiting_for w = 0) by (unfold waiting_for; by rewrite Hw).
    rewrite Hwait, Z.add_0_r.
    destruct (work_call noutput_items w) as [w1|] eqn:Hcall; [|done].
    injection Hstep as <-.
    destruct (work_call_cases _ _ _ Hcall)
      as [[Hs ->] | [(Hs & Hcase & ->) | (Hs & Hi & He & Hcopy)]].
    + apply Heos; lia.
    + unfold req_inv, waiting_for. cbn -[produced].
      split; [done|]. split; [done|]. lia.
    + by apply Hcopy_case.
  - destruct (wpc w) as [|n] eqn:Hw; [done|].
    destruct (wait_for_returns _ _); [|done].
    destruct (work_wake n w) as [w1|] eqn:Hwake; [|done].
    injection Hstep as <-.
    unfold req_inv in Hreq. rewrite Hw in Hreq. destruct Hreq as [Hn Hint].
    assert (Hwait : waiting_for w = n) by (unfold waiting_for; by rewrite Hw).
    rewrite Hwait, Z.add_0_r.
    destruct (work_wake_cases _ _ _ Hwake)
      as [[Hs ->] | [(Hs & He & ->) | (Hs & He & Hcopy)]].
    + apply Heos; lia.
    + unfold req_inv, waiting_for. cbn -[produced]. rewrite Hw.
      split; [done|]. split; [done|]. lia.
    + by apply Hcopy_case.
Qed.

Lemma account_exec ls (w w' : world) :
  Forall session_label ls -> Forall positive_request ls ->
  exec ls w = Some w' -> base_inv w -> req_inv w ->
  Forall (fun strm => Z.of_nat (length strm) = produced (rets w)) (outs w) ->
  Forall (fun strm => Z.of_nat (length strm) = produced (rets w')) (outs w') /\
  produced (rets w') + waiting_for w'
  <= produced (rets w) + waiting_for w + requested ls.
Proof.
  revert w. induction ls as [|l ls IH];
    intros w Hls Hpos Hexec Hbase Hreq Hacc; cbn [exec requested foldr] in *.
  - injection Hexec as <-. split; [done|lia].
  - apply Forall_cons in Hls as [Hl Hls]. apply Forall_cons in Hpos as [Hp Hpos].
    destruct (step l w) as [w1|] eqn:Hstep; [|done].
    destruct (account_step _ _ _ Hp Hstep (bi_items _ Hbase) Hreq Hacc)
      as (Hreq1 & Hacc1 & Hle1).
    destruct (IH w1 Hls Hpos Hexec (base_inv_step _ _ _ Hl Hstep Hbase)
                Hreq1 Hacc1) as [Hacc2 Hle2].
    split; [done|]. fold (requested ls). destruct l; lia.
Qed.

(** X8: between [start] and [stop], on an instance that has returned
    nothing yet and with positive requests, the values [work] has returned
    account for the streams: every stream holds exactly as many items as
    the non-negative returned values add up to (-1 standing for none), and
    that is never more than the calls asked for all together nor more than
    was fetched. *)
Theorem returns_account_for_items ls (w0 w : world) :
  fresh w0 -> rets w0 = [] ->
  Forall session_label ls -> Forall positive_request ls ->
  exec (LStart :: ls) w0 = Some w ->
  Forall (fun strm => Z.of_nat (length strm) = produced (rets w)
                      /\ Z.of_nat (length strm) <= total0 (fetched w))
    (outs w) /\
  produced (rets w) <= requested ls.
Proof.
  intros Hfresh Hrets Hls Hpos Hexec. cbn [exec step] in Hexec.
  destruct (rpc w0); try done.
  pose proof (base_inv_start _ Hfresh) as Hb0.
  destruct (tag_start _ Hfresh) as [Hr0 _].
  assert (Ha0 : Forall (fun strm => Z.of_nat (length strm)
                          = produced (rets (start w0))) (outs (start w0))).
  { cbn. rewrite Hrets. destruct Hfresh as (_ & Ho & _).
    eapply Forall_impl; [exact Ho|]. by intros strm ->. }
  destruct (account_exec _ _ _ Hls Hpos Hexec Hb0 Hr0 Ha0) as [Hacc Hle].
  pose proof (base_inv_exec _ _ _ Hls Hexec Hb0) as Hb.
  split.
  - apply Forall_forall. intros strm Hin.
    split; [exact (proj1 (Forall_forall _ _) Hacc strm Hin)|].
    pose proof (proj1 (Forall_forall _ _) (bi_len _ Hb) strm Hin) as Hw.
    cbn beta in Hw. rewrite Hw. unfold written.
    pose proof (bi_items _ Hb).
    assert (0 <= len0 (d_samples w)) by (unfold len0; lia).
    destruct (rpc w); lia.
  - assert (Hwait : 0 <= waiting_for w).
    { pose proof (proj1 (tag_start _ Hfresh)) as Hr.
      assert (Hreq : req_inv w).
      { clear -Hls Hpos Hexec Hb0 Hr0 Ha0.
        revert Hexec Hb0 Hr0 Ha0. generalize (start w0). revert Hls Hpos.
        induction ls as [|l ls IH]; intros Hls Hpos w1 Hexec Hb Hr Ha;
          cbn in Hexec.
        - by injection Hexec as <-.
        - apply Forall_cons in Hls as [Hl Hls].
          apply Forall_cons in Hpos as [Hp Hpos].
          destruct (step l w1) as [w2|] eqn:Hstep; [|done].
          destruct (account_step _ _ _ Hp Hstep (bi_items _ Hb) Hr Ha)
            as (Hr2 & Ha2 & _).
          exact (IH Hls Hpos w2 Hexec (base_inv_step _ _ _ Hl Hstep Hb) Hr2 Ha2). }
      unfold req_inv, waiting_for in *. destruct (wpc w); lia. }
    cbn in Hle. rewrite Hrets in Hle. unfold waiting_for in Hle at 2.
    cbn in Hle. destruct Hfresh as (_ & _ & _ & Hw0). rewrite Hw0 in Hle.
    cbn in Hle. lia.
Qed.

(** *** Messages and item types *)

Lemma step_msgs l (w w' : world) :
  step l w = Some w' ->
  msgs w' = msgs w \/
  ((exists ms, l = LWorkWake ms) /\ msgs w' = msgs w ++ ["timeout"%string]).
Proof.
  intros Hstep. destruct l; cbn [step] in Hstep.
  - destruct (rpc w); try done. injection Hstep as <-. by left.
  - injection Hstep as <-. by left.
  - destruct (rpc w); try done. injection Hstep as <-. by left.
  - destruct (rpc w); try done. injection Hstep as <-. left.
    unfold refill_head.
    destruct (d_thread_stopped w); [|destruct (d_empty_buffer w)]; done.
  - destruct (rpc w); try done. destruct (d_empty_buffer w); [|done].
    injection Hstep as <-. by left.
  - destruct (rpc w); try done. injection Hstep as <-. by left.
  - destruct (rpc w); try done. injection Hstep as <-. by left.
  - destruct (rpc w); try done. unfold install in Hstep.
    destruct (d_samples w); [done|]. injection Hstep as <-. by left.
  - destruct (wpc w); [|done].
    destruct (work_call noutput_items w) as [w1|] eqn:Hcall; [|done].
    injection Hstep as <-. left.
    destruct (work_call_cases _ _ _ Hcall)
      as [[Hs ->] | [(Hs & Hcase & ->) | (Hs & Hi & He & Hcopy)]];
      [done | done |].
    by destruct (work_copy_fields _ _ _ Hcopy) as (_&_&_&_&_&_&_&?&_).
  - destruct (wpc w) as [|n] eqn:Hw; [done|].
    destruct (wait_for_returns _ _); [|done].
    destruct (work_wake n w) as [w1|] eqn:Hwake; [|done].
    injection Hstep as <-.
    destruct (work_wake_cases _ _ _ Hwake)
      as [[Hs ->] | [(Hs & He & ->) | (Hs & He & Hcopy)]].
    + by left.
    + right. split; [eauto|done].
    + left. by destruct (work_copy_fields _ _ _ Hcopy) as (_&_&_&_&_&_&_&?&_).
Qed.

(** X9: the block publishes nothing but "timeout" on its message port, and
    at most one message for each return of the bounded wait of [work]:
    whatever run is taken, the messages published during it are some
    number of "timeout"s, not more than the waits that returned. *)
Theorem only_timeout_messages ls (w w' : world) :
  exec ls w = Some w' ->
  exists k, (k <= count_wakes ls)%nat /\
            msgs w' = msgs w ++ replicate k "timeout"%string.
Proof.
  revert w. induction ls as [|l ls IH]; intros w Hexec; cbn [exec] in Hexec.
  - injection Hexec as <-. exists 0%nat. cbn. by rewrite app_nil_r.
  - destruct (step l w) as [w1|] eqn:Hstep; [|done].
    destruct (IH _ Hexec) as (k & Hk & Hm).
    destruct (step_msgs _ _ _ Hstep) as [Hsame | [[ms ->] Hone]].
    + exists k. split; [|congruence].
      destruct l; cbn [count_wakes]; lia.
    + exists (S k). split; [cbn [count_wakes]; lia|].
      rewrite Hm, Hone, <- app_assoc. done.
Qed.

Lemma emits_of_mode c x y : emits c x y -> item_of_mode y.
Proof.
  intros H. apply emits_mode in H. unfold item_of_mode.
  destruct d_stream_voltage_values.
  - by destruct H as (v & _ & ->).
  - by destruct H as (z & _ & ->).
Qed.

Lemma items_of_mode_step l (w w' : world) :
  step l w = Some w' ->
  Forall (Forall item_of_mode) (outs w) ->
  Forall (Forall item_of_mode) (outs w').
Proof.
  intros Hstep Hall.
  destruct (step_effect _ _ _ Hstep) as [(Ho & _)|(_ & _ & n & Hcopy & _)];
    [by rewrite Ho|].
  destruct (work_copy_streams _ _ _ Hcopy) as [Hlen Hstr].
  apply Forall_forall. intros strm' Hin.
  apply list_elem_of_lookup in Hin as [i Hin].
  destruct (lookup_lt_is_Some_2 (outs w) i) as [strm Hstrm].
  { rewrite <- Hlen. by eapply lookup_lt_Some. }
  destruct (Hstr i strm Hstrm) as (c & data & _ & Ho & _ & Hem).
  rewrite Ho in Hin. injection Hin as <-.
  apply Forall_app. split.
  - exact (proj1 (Forall_forall _ _) Hall strm
             (list_elem_of_lookup_2 _ _ _ Hstrm)).
  - clear -Hem. induction Hem as [|x y xs ys Hxy _ IH]; constructor;
      [by eapply emits_of_mode | done].
Qed.

(** X10: every item [work] writes has the type of the output signature the
    constructor set: a [float] in voltage mode and a [short] otherwise; a
    run never puts an item of the other type on a stream. *)
Theorem items_match_signature ls (w w' : world) :
  exec ls w = Some w' ->
  Forall (Forall item_of_mode) (outs w) ->
  Forall (Forall item_of_mode) (outs w').
Proof.
  revert w. induction ls as [|l ls IH]; intros w Hexec Hall; cbn in Hexec.
  - by injection Hexec as <-.
  - destruct (step l w) as [w1|] eqn:Hstep; [|done].
    eapply IH; [done|]. by eapply items_of_mode_step.
Qed.

(** *** Requests the scheduler does not make, and empty blocks *)

Lemma work_copy_zero_outs n (w w' : world) :
  work_copy n w = Ok w' -> nb_of n w = 0 -> outs w' = outs w.
Proof.
  intros Hcopy Hnb.
  destruct (work_copy_streams _ _ _ Hcopy) as [Hlen Hstr].
  apply list_eq_same_length with (length (outs w)); [done..|].
  intros i strm' strm Hi' Hstrm' Hstrm.
  destruct (Hstr i strm Hstrm) as (c & data & _ & Ho & Hld & _).
  rewrite Hnb in Hld. destruct data; [|done].
  rewrite app_nil_r in Ho. congruence.
Qed.

(** A copy of no items reads no row, so it returns whatever the block
    holds, as long as there is a set flag for every stream. *)
Lemma work_copy_zero_total n (w : world) :
  nb_of n w = 0 -> (length (outs w) <= length active_channels)%nat ->
  exists w', work_copy n w = Ok w'.
Proof.
  intros Hnb Hlen. unfold work_copy. fold (nb_of n w). rewrite Hnb.
  destruct (work_streams_total w (Z.to_nat 0) (length (outs w)) 0 0
              (outs w) (tags w) (take (length (outs w)) active_channels))
    as [r Hr].
  - rewrite stream_channels_spec, drop_0. fold active_channels.
    by rewrite decide_True.
  - apply Forall_forall. intros c _. by exists [].
  - rewrite Hr. cbn [rbind]. eauto.
Qed.

(** X11: [work] casts [noutput_items] to [unsigned long] without looking
    at its sign: called with a negative count on a filled buffer, it copies
    and returns everything the buffer still holds, however small the output
    regions are. *)
Theorem negative_request_drains (n : Z) (w : world) :
  wpc w = WIdle -> d_thread_stopped w = false -> d_empty_buffer w = false ->
  well_formed w -> n < 0 -> int_range n ->
  0 < d_items_in_buffer w < 2 ^ 31 ->
  exists w',
    step (LWork n) w = Some w' /\
    rets w' = rets w ++ [d_items_in_buffer w] /\
    d_items_in_buffer w' = 0 /\
    Forall2 (fun strm strm' =>
               length strm' = (length strm + Z.to_nat (d_items_in_buffer w))%nat)
      (outs w) (outs w').
Proof.
  intros Hidle Hs He Hwf Hn Hint Hitems.
  destruct (work_copy_total n w Hwf) as [w' Hcopy].
  assert (Hnb : nb_of n w = d_items_in_buffer w).
  { unfold nb_of, to_ulong, int_range in *.
    replace n with (n + 2 ^ 64 + (-1) * 2 ^ 64) by lia.
    rewrite Z.mod_add by lia. rewrite Z.mod_small by lia. lia. }
  pose proof (work_copy_fields _ _ _ Hcopy)
    as (_ & Hi & _ & _ & _ & _ & _ & _ & Hret & _).
  pose proof (work_copy_lengths _ _ _ Hcopy) as Hlens.
  rewrite Hnb in *. rewrite to_int_small in Hret by (unfold int_range; lia).
  exists w'. split.
  { rewrite step_work_idle by done. rewrite work_call_copy by (done || lia).
    by rewrite Hcopy. }
  split; [done|]. split; [lia|done].
Qed.

(** X12: a call for zero items on a block that was not read yet attaches
    the "buffer_start" tags, returns 0 and leaves the read cursor at zero,
    so that the next call attaches the same tags again, at the same offsets
    and with the same value. *)
Theorem zero_request_repeats_tags (n : Z) (w : world) :
  wpc w = WIdle -> d_thread_stopped w = false -> d_empty_buffer w = false ->
  well_formed w -> d_sample_index w = 0 -> 0 < d_items_in_buffer w ->
  exists w' w'',
    step (LWork 0) w = Some w' /\
    rets w' = rets w ++ [0] /\ outs w' = outs w /\
    d_sample_index w' = 0 /\
    tags w' = tags w ++ start_tags w (outs w) 0 (length (outs w)) /\
    step (LWork n) w' = Some w'' /\
    tags w'' = tags w ++ start_tags w (outs w) 0 (length (outs w))
                      ++ start_tags w (outs w) 0 (length (outs w)) /\
    start_tags w (outs w) 0 (length (outs w))
    = (fun j => buffer_start_tag j (nitems_written (outs w) j)
                  (d_items_in_buffer w)) <$> seq 0 (length (outs w)).
Proof.
  intros Hidle Hs He Hwf Hx Hitems.
  destruct (work_copy_total 0 w Hwf) as [w' Hcopy].
  assert (Hnb : nb_of 0 w = 0).
  { unfold nb_of, to_ulong. rewrite Z.mod_0_l by lia. lia. }
  pose proof (work_copy_fields _ _ _ Hcopy)
    as (Hd & Hi & Hx' & He' & Hs' & _ & Hw' & _ & Hret & _ & Ht & _).
  rewrite Hnb in *.
  pose proof (work_copy_zero_outs _ _ _ Hcopy Hnb) as Houts.
  pose proof (well_formed_work_copy _ _ _ Hwf Hcopy) as Hwf'.
  destruct (work_copy_total n w' Hwf') as [w'' Hcopy2].
  pose proof (work_copy_fields _ _ _ Hcopy2)
    as (_ & _ & _ & _ & _ & _ & _ & _ & _ & _ & Ht2 & _).
  exists w', w''. split.
  { rewrite step_work_idle by done. rewrite work_call_copy by (done || lia).
    by rewrite Hcopy. }
  split; [done|]. split; [done|]. split; [lia|]. split; [done|]. split.
  { rewrite step_work_idle by done.
    rewrite work_call_copy by (congruence || lia). by rewrite Hcopy2. }
  assert (Hsame : start_tags w' (outs w') 0 (length (outs w'))
                  = start_tags w (outs w) 0 (length (outs w))).
  { unfold start_tags. rewrite Houts, Hx', Hi, Hx.
    replace (d_items_in_buffer w - 0) with (d_items_in_buffer w) by lia.
    done. }
  split.
  - rewrite Ht2, Ht, Hsame, <- app_assoc. done.
  - unfold start_tags. by rewrite decide_True.
Qed.

(** X13: a fetched block whose first row holds no sample does not end the
    stream: once the block is installed, the waiting call of [work] returns
    0 (not -1) with no item written, and the next call finds no items, sets
    the empty flag and waits for another block. *)
Theorem empty_block_is_refetched (n n2 ms : Z) (w : world) rest :
  rpc w = RFetched -> d_samples w = [] :: rest ->
  wpc w = WWaiting n -> d_thread_stopped w = false ->
  (length (outs w) <= length active_channels)%nat ->
  0 <= ms <= wait_for_ms ->
  exists w',
    exec [LInstall; LWorkWake ms; LWork n2] w = Some w' /\
    rets w' = rets w ++ [0] /\ outs w' = outs w /\
    wpc w' = WWaiting n2 /\ d_empty_buffer w' = true /\
    step LRefillHead w' = Some (set_rpc RFetching w').
Proof.
  intros Hr Hd Hw Hs Hlen Hms.
  set (w1 := {| d_samples := d_samples w;
                d_items_in_buffer := Z.of_nat (length (@nil sample));
                d_sample_index := 0;
                d_empty_buffer := false;
                d_thread_stopped := d_thread_stopped w;
                rpc := RHead;
                wpc := wpc w;
                outs := outs w;
                tags := tags w;
                msgs := msgs w;
                rets := rets w;
                fetched := fetched w |}).
  assert (Hinst : step LInstall w = Some w1).
  { cbn [step]. rewrite Hr. unfold install. rewrite Hd. subst w1.
    by rewrite Hd. }
  assert (Hnb : nb_of n w1 = 0).
  { unfold nb_of. cbn. pose proof (to_ulong_nonneg n). lia. }
  destruct (work_copy_zero_total n w1 Hnb Hlen) as [w2 Hcopy].
  pose proof (work_copy_zero_outs _ _ _ Hcopy Hnb) as Houts.
  pose proof (work_copy_fields _ _ _ Hcopy)
    as (_ & Hi & _ & He & Hs2 & Hr2 & Hw2 & _ & Hret & _).
  rewrite Hnb in Hi, Hret. cbn in Hi, He, Hs2, Hr2, Hret, Houts.
  assert (Hwake : step (LWorkWake ms) w1 = Some w2).
  { cbn [step]. cbn [wpc w1]. rewrite Hw.
    assert (Hret' : wait_for_returns (d_empty_buffer w1) ms = true).
    { unfold wait_for_returns. cbn.
      destruct (Z.leb_spec 0 ms); [|lia].
      destruct (Z.leb_spec ms wait_for_ms); [done|lia]. }
    rewrite Hret'. unfold work_wake. cbn [d_thread_stopped d_empty_buffer w1].
    rewrite Hs. cbn [negb]. by rewrite Hcopy. }
  exists (set_wpc (WWaiting n2) (set_empty_buffer true w2)).
  split.
  { cbn [exec]. rewrite Hinst, Hwake.
    rewrite step_work_idle by done. unfold work_call. rewrite Hs2, Hs.
    rewrite decide_True by lia. done. }
  cbn. split; [done|]. split; [done|]. split; [done|]. split; [done|].
  rewrite Hr2. unfold refill_head. cbn. rewrite Hs2, Hs. done.
Qed.

(** *** The channels of the streams *)

Lemma active_from_increasing flags k i j c d :
  (i < j)%nat ->
  active_from flags k !! i = Some c -> active_from flags k !! j = Some d ->
  (c < d)%nat.
Proof.
  revert k i j. induction flags as [|f rest IH]; intros k i j Hij Hc Hd;
    cbn [active_from] in *; [done|].
  destruct (decide (f = 0)); [by eapply IH|].
  destruct j as [|j]; [lia|]. cbn in Hd.
  destruct i as [|i]; cbn in Hc.
  - injection Hc as <-.
    pose proof (active_from_ge rest (S k) d
                  (list_elem_of_lookup_2 _ _ _ Hd)). lia.
  - eapply (IH (S k) i j); [lia|done|done].
Qed.

(** X14: in a run of the loop over the output streams that returns, the
    channels the streams are read from come in channel order and are
    pairwise distinct, each of them has its flag set, and no channel with
    a set flag below one of them is left out; the items written to stream
    [i] are the copy of the [i]-th of them.  Two streams never carry the
    same channel. *)
Theorem streams_read_distinct_channels (w : world) (nb : nat)
    (os os' : list (list out_item)) (ts ts' : list tag_t) :
  work_streams w nb (length os) 0 0 os ts = Ok (os', ts') ->
  exists cs datas,
    stream_channels (length os) 0 = Ok cs /\
    length cs = length os /\
    Forall2 (fun c data =>
               copy_samples (d_samples w) c (Z.to_nat (d_sample_index w)) nb 0
               = Ok data) cs datas /\
    os' = write_streams 0 datas os /\
    (forall i j c d, (i < j)%nat ->
       cs !! i = Some c -> cs !! j = Some d -> (c < d)%nat) /\
    (forall i c, cs !! i = Some c ->
       exists f, d_channels !! c = Some f /\ f <> 0) /\
    (forall c d f, d ∈ cs -> (c < d)%nat ->
       d_channels !! c = Some f -> f <> 0 -> c ∈ cs).
Proof.
  intros Hrun.
  destruct (work_streams_ok _ _ _ _ _ _ _ _ _ Hrun)
    as (cs & datas & Hcs & Hall & -> & _).
  exists cs, datas. split; [done|].
  apply stream_channels_active in Hcs as [Hlen ->].
  split; [rewrite length_take; lia|]. split; [done|]. split; [done|].
  unfold active_channels in *. split; [|split].
  - intros i j c d Hij Hc Hd.
    apply lookup_take_Some in Hc as [Hc _].
    apply lookup_take_Some in Hd as [Hd _].
    by eapply active_from_increasing.
  - intros i c Hc. apply lookup_take_Some in Hc as [Hc _].
    apply list_elem_of_lookup_2 in Hc.
    apply active_from_lookup in Hc as (_ & f & Hf & Hne).
    rewrite Nat.sub_0_r in Hf. eauto.
  - intros c d f Hd Hcd Hf Hne.
    apply list_elem_of_lookup in Hd as [j Hd].
    apply lookup_take_Some in Hd as [Hd Hj].
    assert (Hc : c ∈ active_from d_channels 0).
    { apply active_from_lookup. split; [lia|]. exists f.
      by rewrite Nat.sub_0_r. }
    apply list_elem_of_lookup in Hc as [i Hc].
    assert (Hij : (i < j)%nat).
    { destruct (decide (i < j)%nat) as [?|Hge]; [done|].
      destruct (decide (i = j)) as [->|Hne'].
      - rewrite Hc in Hd. injection Hd as ->. lia.
      - pose proof (active_from_increasing _ _ j i d c ltac:(lia) Hd Hc). lia. }
    apply (list_elem_of_lookup_2 _ i). apply lookup_take_Some. split; [done|lia].
Qed.

End MoreProperties.

(** ** Further properties of the registry *)

Section MoreRegistryProperties.

Context {handle : Type} (getUri : handle -> string).

(** X15: [get_context] never replaces or removes a registered context, and
    changes the registry at no key but the URI the returned context
    reports; the returned context is registered, under the uri it was asked
    for or under its own URI, unless that URI was taken already, in which
    case the registry is left as it was. *)
Theorem get_context_keeps_registered (m2kOpen : string -> option handle)
    (uri : string) (s_contexts s' : gmap string handle) (ctx : handle) :
  Registry.get_context getUri m2kOpen uri s_contexts = Some (ctx, s') ->
  (forall k v, s_contexts !! k = Some v -> s' !! k = Some v) /\
  (forall k, k <> getUri ctx -> s' !! k = s_contexts !! k) /\
  (s_contexts !! uri = Some ctx \/ s' !! getUri ctx = Some ctx \/
   (is_Some (s_contexts !! getUri ctx) /\ s' = s_contexts)).
Proof.
  unfold Registry.get_context, Registry.map_insert.
  destruct (s_contexts !! uri) as [c|] eqn:Hhit.
  - intros [= -> <-]. split; [done|]. split; [done|]. by left.
  - destruct (m2kOpen uri) as [c|]; [|done].
    destruct (s_contexts !! getUri c) as [old|] eqn:Hkey.
    + intros [= -> <-]. split; [done|]. split; [done|].
      right. right. rewrite Hkey. split; [by eexists|done].
    + intros [= -> <-]. split; [|split].
      * intros k v Hk. rewrite lookup_insert_ne; [done|]. congruence.
      * intros k Hk. by rewrite lookup_insert_ne.
      * right. left. apply lookup_insert_eq.
Qed.

(** X16: two instances constructed for the same uri hold the same context,
    opened once; the destructor of the first closes it and erases it from
    the registry while the second still holds it, and the destructor of the
    second then finds nothing to close, so the context is never closed
    twice. *)
Theorem shared_context_closed_by_first_destructor
    (m2kOpen : string -> option handle) (uri : string)
    (s_contexts : gmap string handle) (ctx : handle) :
  s_contexts !! uri = None -> m2kOpen uri = Some ctx -> getUri ctx = uri ->
  exists s1,
    Registry.get_context getUri m2kOpen uri s_contexts = Some (ctx, s1) /\
    (forall m2kOpen',
       Registry.get_context getUri m2kOpen' uri s1 = Some (ctx, s1)) /\
    Registry.remove_contexts uri s1 = (s_contexts, [ctx]) /\
    Registry.remove_contexts uri s_contexts = (s_contexts, []).
Proof.
  intros Hnone Hopen Huri. exists (<[uri := ctx]> s_contexts).
  unfold Registry.get_context, Registry.remove_contexts, Registry.map_insert.
  rewrite Hnone, Hopen, Huri, Hnone, lookup_insert_eq.
  rewrite delete_insert_id by done. done.
Qed.


(** X18: a context is registered under the URI it reports, not under the
    uri it was asked for: when the two differ, [remove_contexts] for the
    asked uri closes nothing and the context stays registered and open, and
    another [get_context] for the asked uri goes to the device library
    again. *)
Theorem other_uri_is_never_released (m2kOpen : string -> option handle)
    (uri : string) (s_contexts : gmap string handle) (ctx : handle) :
  s_contexts !! uri = None -> m2kOpen uri = Some ctx ->
  getUri ctx <> uri -> s_contexts !! getUri ctx = None ->
  Registry.get_context getUri m2kOpen uri s_contexts
  = Some (ctx, <[getUri ctx := ctx]> s_contexts) /\
  Registry.remove_contexts uri (<[getUri ctx := ctx]> s_contexts)
  = (<[getUri ctx := ctx]> s_contexts, []) /\
  forall m2kOpen',
    Registry.get_context getUri m2kOpen' uri (<[getUri ctx := ctx]> s_contexts)
    = match m2kOpen' uri with
      | Some ctx' =>
          Some (ctx', Registry.map_insert (getUri ctx') ctx'
                        (<[getUri ctx := ctx]> s_contexts))
      | None => None
      end.
Proof.
  intros Hnone Hopen Hne Hkey.
  unfold Registry.get_context, Registry.remove_contexts, Registry.map_insert.
  rewrite Hnone, Hopen, Hkey.
  rewrite lookup_insert_ne by done. rewrite Hnone. done.
Qed.

End MoreRegistryProperties.

(** ** The further properties on the concrete instances *)

Lemma set_params_spec_witness :
  set_params (cfg := demo_config [1; 0] false) [3] 100000 1
  = inr [EnableChannel 0 true; SetRange 0 3; SetSampleRate 100000;
         SetOversamplingRatio 1] /\
  set_params (cfg := demo_config [0; 1] false) [3] 100000 1
  = inl RangesOutOfRange.
Proof.
  split.
  - rewrite (set_params_spec (cfg := demo_config [1; 0] false)).
    vm_compute. reflexivity.
  - rewrite (set_params_spec (cfg := demo_config [0; 1] false)).
    vm_compute. reflexivity.
Defined.

Lemma set_trigger_spec_witness :
  set_trigger (cfg := demo_config [1; 0] false) [2] [1] 0 5 [700]
  = inr [SetAnalogCondition 0 2; SetAnalogMode 0 1; SetAnalogLevel 0 700;
         SetAnalogSource 0; SetAnalogDelay 5] /\
  exists e, set_trigger (cfg := demo_config [1; 1] false) [2; 2] [1] 0 5 [700; 700]
            = inl e.
Proof.
  split.
  - rewrite (proj1 (set_trigger_spec (cfg := demo_config [1; 0] false)
                      [2] [1] 0 5 [700])).
    + reflexivity.
    + vm_compute. repeat constructor.
  - apply (proj2 (set_trigger_spec (cfg := demo_config [1; 1] false)
                    [2; 2] [1] 0 5 [700; 700])).
    intros H. change (active_channels (cfg := demo_config [1; 1] false))
      with [0%nat; 1%nat] in H.
    apply Forall_cons in H as [_ H]. apply Forall_cons in H as [(_ & H & _) _].
    cbn in H. lia.
Defined.

Lemma demo_fetching_exec :
  exec (cfg := demo_raw) [LStart; LRefillHead] demo_new = Some demo_fetching.
Proof. reflexivity. Qed.

Lemma no_copy_during_fetch_witness :
  exists w',
    step (cfg := demo_raw) (LWork 1024) demo_fetching = Some w' /\
    outs w' = outs demo_fetching /\ tags w' = tags demo_fetching.
Proof.
  eexists. split; [reflexivity|].
  exact (proj1 (no_copy_during_fetch (cfg := demo_raw) [LRefillHead] demo_new
                  demo_fetching (LWork 1024) _ demo_fetching_exec
                  (or_introl eq_refl) eq_refl)).
Defined.

Lemma demo_idle_exec :
  exec (cfg := demo_raw) (LStart :: demo_idle_run) demo_stale
  = Some demo_idle_end.
Proof. vm_compute. reflexivity. Qed.

Lemma nothing_written_before_install_witness :
  d_empty_buffer demo_idle_end = true /\
  outs demo_idle_end = [[]; []] /\ tags demo_idle_end = [].
Proof.
  apply (nothing_written_before_install (cfg := demo_raw) demo_idle_run
           demo_stale demo_idle_end).
  - unfold demo_idle_run. repeat constructor; discriminate.
  - exact demo_idle_exec.
Defined.

Lemma demo_stop_exec :
  exec (cfg := demo_raw) demo_stop_run (stop_signal (demo_filled 2 2))
  = Some demo_stop_end.
Proof. vm_compute. reflexivity. Qed.

Lemma refill_ends_after_stop_witness :
  d_thread_stopped demo_stop_end = true /\
  outs demo_stop_end = [[]; []] /\
  (count_refill demo_stop_run <= 4)%nat /\
  (length (fetched demo_stop_end) <= 2)%nat.
Proof.
  destruct (refill_ends_after_stop (cfg := demo_raw) demo_stop_run
              (demo_filled 2 2) demo_stop_end)
    as (Hs & Ho & Hn & _ & Hf & _).
  - unfold demo_stop_run. repeat constructor.
  - exact demo_stop_exec.
  - split; [exact Hs|]. split; [exact Ho|]. split; [exact Hn | exact Hf].
Defined.

Lemma demo_first_block_read_exec :
  exec (cfg := demo_raw) (LStart :: demo_first_block_read) demo_new
  = Some demo_first_block_read_end.
Proof. vm_compute. reflexivity. Qed.

Lemma demo_first_block_read_session :
  Forall (session_label (sample := Z)) demo_first_block_read.
Proof. unfold demo_first_block_read. repeat constructor. Qed.

Lemma fetch_only_when_drained_witness :
  d_items_in_buffer demo_first_block_read_end = 0 /\
  Forall (fun strm => Z.of_nat (length strm) = 4)
    (outs demo_first_block_read_end) /\
  Forall2 (emits (cfg := demo_raw) 1) [5; 6; 7; 8]
    [OutShort 5; OutShort 6; OutShort 7; OutShort 8].
Proof.
  destruct (fetch_only_when_drained (cfg := demo_raw) demo_first_block_read
              demo_new demo_first_block_read_end demo_block2
              (fetch_ok demo_block2 demo_first_block_read_end)
              demo_new_fresh demo_first_block_read_session
              demo_first_block_read_exec eq_refl)
    as (Hitems & Hlen & Hdata).
  split; [exact Hitems|]. split; [exact Hlen|].
  assert (Hrect : Forall rectangular (fetched demo_first_block_read_end))
    by repeat constructor.
  exact (Hdata Hrect 1%nat 1%nat
           [OutShort 5; OutShort 6; OutShort 7; OutShort 8] eq_refl eq_refl).
Defined.

Lemma work_return_bounds_witness :
  exists w',
    step (cfg := demo_raw) (LWork 7) (demo_filled 2 0) = Some w' /\
    rets w' = [4] /\
    ((wpc w' = WWaiting 7 /\ rets w' = [] /\ outs w' = [[]; []]) \/
     (wpc w' = WIdle /\ rets w' = [-1] /\ outs w' = [[]; []]) \/
     (wpc w' = WIdle /\
      exists r, rets w' = [r] /\ r = Z.min 4 7 /\ 0 <= r <= 7 /\
        d_items_in_buffer w' = 4 - r /\
        Forall2 (fun strm strm' =>
                   length strm' = (length strm + Z.to_nat r)%nat)
          (outs (demo_filled 2 0)) (outs w'))).
Proof.
  eexists. split; [vm_compute; reflexivity|]. split; [reflexivity|].
  assert (H7 : int_range 7) by (unfold int_range; lia).
  exact (work_return_bounds (cfg := demo_raw) 7 (demo_filled 2 0) _
           ltac:(lia) H7 ltac:(cbn; lia) eq_refl).
Defined.

Lemma demo_two_blocks_session :
  Forall (session_label (sample := Z)) demo_two_blocks /\
  Forall (positive_request (sample := Z)) demo_two_blocks.
Proof.
  unfold demo_two_blocks, positive_request, int_range.
  split; repeat constructor; lia.
Qed.

Lemma returns_account_for_items_witness :
  rets demo_two_blocks_end = [3; 1; 3] /\
  Forall (fun strm => Z.of_nat (length strm) = 7 /\
                      Z.of_nat (length strm) <= 8)
    (outs demo_two_blocks_end) /\
  produced (rets demo_two_blocks_end) <= 9.
Proof.
  split; [reflexivity|].
  exact (returns_account_for_items (cfg := demo_raw) demo_two_blocks
           demo_new demo_two_blocks_end demo_new_fresh eq_refl
           (proj1 demo_two_blocks_session) (proj2 demo_two_blocks_session)
           demo_two_blocks_exec).
Defined.

Lemma demo_hung_fetch_exec :
  exec (cfg := demo_raw) demo_hung_fetch demo_new = Some demo_hung_fetch_end.
Proof. vm_compute. reflexivity. Qed.

Lemma only_timeout_messages_witness :
  exists k, (k <= 2)%nat /\
            msgs demo_hung_fetch_end = replicate k "timeout"%string.
Proof.
  exact (only_timeout_messages (cfg := demo_raw) demo_hung_fetch demo_new
           demo_hung_fetch_end demo_hung_fetch_exec).
Defined.

Lemma items_match_signature_witness :
  Forall (Forall (item_of_mode (cfg := demo_raw))) (outs demo_two_blocks_end).
Proof.
  apply (items_match_signature (cfg := demo_raw) (LStart :: demo_two_blocks)
           demo_new demo_two_blocks_end demo_two_blocks_exec).
  repeat constructor.
Defined.

Lemma negative_request_drains_witness :
  exists w',
    step (cfg := demo_raw) (LWork (-1)) (demo_filled 2 0) = Some w' /\
    rets w' = [4] /\ d_items_in_buffer w' = 0.
Proof.
  destruct (negative_request_drains (cfg := demo_raw) (-1) (demo_filled 2 0))
    as (w' & Hstep & Hret & Hi & _).
  - reflexivity.
  - reflexivity.
  - reflexivity.
  - exact demo_filled_well_formed.
  - lia.
  - unfold int_range. lia.
  - cbn. lia.
  - exists w'. split; [exact Hstep|]. split; [exact Hret | exact Hi].
Defined.

Lemma zero_request_repeats_tags_witness :
  exists w' w'',
    step (cfg := demo_raw) (LWork 0) (demo_filled 2 0) = Some w' /\
    step (cfg := demo_raw) (LWork 2) w' = Some w'' /\
    tags w'' = [buffer_start_tag 0 0 4; buffer_start_tag 1 0 4;
                buffer_start_tag 0 0 4; buffer_start_tag 1 0 4].
Proof.
  destruct (zero_request_repeats_tags (cfg := demo_raw) 2 (demo_filled 2 0))
    as (w' & w'' & Hstep & _ & _ & _ & _ & Hstep2 & Ht & Hstart).
  - reflexivity.
  - reflexivity.
  - reflexivity.
  - exact demo_filled_well_formed.
  - reflexivity.
  - cbn. lia.
  - exists w', w''. split; [exact Hstep|]. split; [exact Hstep2|].
    rewrite Ht, Hstart. reflexivity.
Defined.

Lemma empty_block_is_refetched_witness :
  exists w',
    exec (cfg := demo_raw) [LInstall; LWorkWake 30; LWork 1024]
      demo_empty_fetched = Some w' /\
    rets w' = [0] /\ wpc w' = WWaiting 1024 /\ d_empty_buffer w' = true.
Proof.
  destruct (empty_block_is_refetched (cfg := demo_raw) 1024 1024 30
              demo_empty_fetched [[]])
    as (w' & Hexec & Hret & _ & Hw & He & _).
  - reflexivity.
  - reflexivity.
  - reflexivity.
  - reflexivity.
  - vm_compute. repeat constructor.
  - unfold wait_for_ms. lia.
  - exists w'. split; [exact Hexec|]. split; [exact Hret|].
    split; [exact Hw | exact He].
Defined.

Lemma get_context_keeps_registered_witness :
  Registry.get_context demo_usb_uri demo_open_any "ip:m2k.local" demo_registry
  = Some (7%nat, demo_registry) /\
  demo_registry !! "usb:1.2.5"%string = Some 3%nat /\
  ((demo_registry !! "ip:m2k.local"%string = Some 7%nat) \/
   (demo_registry !! "usb:1.2.5"%string = Some 7%nat) \/
   (is_Some (demo_registry !! "usb:1.2.5"%string) /\
    demo_registry = demo_registry)).
Proof.
  assert (Hget : Registry.get_context demo_usb_uri demo_open_any
                   "ip:m2k.local" demo_registry
                 = Some (7%nat, demo_registry)).
  { vm_compute. reflexivity. }
  destruct (get_context_keeps_registered demo_usb_uri demo_open_any
              "ip:m2k.local" demo_registry demo_registry 7%nat Hget)
    as (Hkeep & _ & Hreg).
  split; [exact Hget|]. split; [|exact Hreg].
  apply Hkeep. reflexivity.
Defined.

Lemma shared_context_closed_by_first_destructor_witness :
  exists s1 : gmap string string,
    Registry.get_context id demo_open "ip:192.168.2.1" ∅
    = Some ("ip:192.168.2.1"%string, s1) /\
    Registry.get_context id (fun _ => None) "ip:192.168.2.1" s1
    = Some ("ip:192.168.2.1"%string, s1) /\
    Registry.remove_contexts "ip:192.168.2.1" s1
    = (∅, ["ip:192.168.2.1"%string]) /\
    Registry.remove_contexts (handle := string) "ip:192.168.2.1" ∅ = (∅, []).
Proof.
  destruct (shared_context_closed_by_first_destructor id demo_open
              "ip:192.168.2.1" ∅ "ip:192.168.2.1"%string)
    as (s1 & H1 & H2 & H3 & H4).
  - apply lookup_empty.
  - reflexivity.
  - reflexivity.
  - exists s1. split; [exact H1|]. split; [exact (H2 (fun _ => None))|].
    split; [exact H3 | exact H4].
Defined.

Lemma other_uri_is_never_released_witness :
  Registry.get_context demo_usb_uri demo_open_any "ip:m2k.local" ∅
  = Some (7%nat, <["usb:1.2.5"%string := 7%nat]> ∅) /\
  Registry.remove_contexts "ip:m2k.local" (<["usb:1.2.5"%string := 7%nat]> ∅)
  = (<["usb:1.2.5"%string := 7%nat]> ∅, []).
Proof.
  destruct (other_uri_is_never_released demo_usb_uri demo_open_any
              "ip:m2k.local" ∅ 7%nat) as (H1 & H2 & _).
  - apply lookup_empty.
  - reflexivity.
  - discriminate.
  - apply lookup_empty.
  - split; [exact H1 | exact H2].
Defined.

Lemma streams_read_distinct_channels_witness :
  exists cs,
    stream_channels (cfg := demo_config [1; 0; 1] false) 2 0 = Ok cs /\
    cs = [0%nat; 2%nat] /\
    forall i j c d, (i < j)%nat ->
      cs !! i = Some c -> cs !! j = Some d -> (c < d)%nat.
Proof.
  destruct (streams_read_distinct_channels (cfg := demo_config [1; 0; 1] false)
              demo_three_rows 2 [[]; []]
              [[OutShort 1; OutShort 2]; [OutShort 5; OutShort 6]]
              [] [buffer_start_tag 0 0 2; buffer_start_tag 1 0 2])
    as (cs & datas & Hcs & _ & _ & _ & Hinc & _).
  - vm_compute. reflexivity.
  - exists cs. split; [exact Hcs|]. split; [|exact Hinc].
    vm_compute in Hcs. by injection Hcs as <-.
Defined.
